(** * Explainable Portfolio Dashboard: ticker detection, price loading and
      event-window returns

    A shallow embedding of
      - [utils/ticker_mapper.py]  ([build_ticker_lookup], [detect_tickers_in_text],
                                   [explode_news_by_ticker]),
      - [utils/data_loader.py]    ([load_price_panel]),
      - [utils/news_loader.py]    ([parse_rss_feed]),
      - [utils/sentiment_analysis.py]   ([get_finbert_pipeline], [analyze_headlines]),
      - [modules/sentiment_analysis.py] ([get_sentiment]),
      - [app.py]                  ([compute_event_windows], and the steps of
                                   [main] from the headlines to the windows),
    the properties the design document states about them, and further
    properties of the code.

    Python [str] values are Rocq [string]s.  The case mappings and the
    character classes below are the ASCII ones; a character outside ASCII
    is carried through unchanged and belongs to no class.  This is Python
    on ASCII text; Python judges a character outside ASCII by its Unicode
    class (in [\b], [lower] and [upper]), and a statement that would depend
    on such a character says that the text in question is ASCII.  Python
    floats (and numpy's float64) are the kernel's binary64 floats. *)

From Stdlib Require Import ZArith Ascii String Sorting.Sorted.
From Stdlib Require Import Floats Numbers.Cyclic.Int63.Uint63.
From stdpp Require Import prelude strings gmap.

Local Open Scope string_scope.

(** ** Python strings *)

Module PyStr.

Definition code (c : ascii) : N := N_of_ascii c.

Definition between (lo hi : N) (c : ascii) : bool :=
  ((lo <=? code c) && (code c <=? hi))%N.

Definition is_upper : ascii -> bool := between 65 90.
Definition is_lower : ascii -> bool := between 97 122.
Definition is_digit : ascii -> bool := between 48 57.

(** [[A-Za-z]] *)
Definition is_letter (c : ascii) : bool := is_upper c || is_lower c.
(** [[A-Za-z0-9]] *)
Definition is_alnum (c : ascii) : bool := is_letter c || is_digit c.
(** [\w] *)
Definition is_word (c : ascii) : bool := is_alnum c || (code c =? 95)%N.
(** the characters [str.strip()] removes: tab, newline, vertical tab, form
    feed, carriage return, the four separators 28..31 and the space *)
Definition is_space (c : ascii) : bool :=
  between 9 13 c || between 28 32 c.

Definition lower_char (c : ascii) : ascii :=
  if is_upper c then ascii_of_N (code c + 32) else c.
Definition upper_char (c : ascii) : ascii :=
  if is_lower c then ascii_of_N (code c - 32) else c.

Fixpoint map_chars (f : ascii -> ascii) (s : string) : string :=
  match s with
  | EmptyString => EmptyString
  | String c s' => String (f c) (map_chars f s')
  end.

(** [s.lower()], [s.upper()] *)
Definition lower : string -> string := map_chars lower_char.
Definition upper : string -> string := map_chars upper_char.

(** truthiness of a string: [bool(s)] *)
Definition truthy (s : string) : bool :=
  match s with EmptyString => false | _ => true end.

Definition head (s : string) : option ascii :=
  match s with EmptyString => None | String c _ => Some c end.

Fixpoint last (s : string) : option ascii :=
  match s with
  | EmptyString => None
  | String c EmptyString => Some c
  | String _ s' => last s'
  end.

(** [s.startswith(p)] *)
Fixpoint starts_with (p s : string) : bool :=
  match p, s with
  | EmptyString, _ => true
  | String a p', String c s' => Ascii.eqb a c && starts_with p' s'
  | String _ _, EmptyString => false
  end.

(** [p in s] *)
Fixpoint contains (p s : string) : bool :=
  starts_with p s ||
  match s with
  | EmptyString => false
  | String _ s' => contains p s'
  end.

Fixpoint lstrip (s : string) : string :=
  match s with
  | String c s' => if is_space c then lstrip s' else s
  | EmptyString => EmptyString
  end.

Fixpoint rstrip (s : string) : string :=
  match s with
  | EmptyString => EmptyString
  | String c s' =>
      match rstrip s' with
      | EmptyString => if is_space c then EmptyString else String c EmptyString
      | r => String c r
      end
  end.

(** [s.strip()] *)
Definition strip (s : string) : string := rstrip (lstrip s).

(** [s.endswith(p)] *)
Definition ends_with (p s : string) : bool :=
  let n := String.length s - String.length p in
  Nat.leb (String.length p) (String.length s) &&
  String.eqb (String.substring n (String.length p) s) p.

(** the order of [<=] on [str]: lexicographic on the code points *)
Definition le (s1 s2 : string) : Prop := String.leb s1 s2 = true.

End PyStr.

(** ** The three regular expressions of the ticker mapper *)

Module Re.
Import PyStr.

(** the longest run of at most [n] letters at the head of [s] *)
Fixpoint take_letters (n : nat) (s : string) : string :=
  match n, s with
  | S n', String c s' =>
      if is_letter c then String c (take_letters n' s') else EmptyString
  | _, _ => EmptyString
  end.

(** [re.findall(r"\$([A-Za-z]{1,6})", s)]: scanning from the left, a dollar
    sign followed by a letter starts a match, which takes up to six letters;
    the scan resumes after the match ([skip] counts the characters of the
    match still to be passed). *)
Fixpoint findall_cashtag_from (skip : nat) (s : string) : list string :=
  match s with
  | EmptyString => []
  | String c s' =>
      match skip with
      | S k => findall_cashtag_from k s'
      | O =>
          if Ascii.eqb c "$" then
            match take_letters 6 s' with
            | EmptyString => findall_cashtag_from 0 s'
            | m => m :: findall_cashtag_from (String.length m) s'
            end
          else findall_cashtag_from 0 s'
      end
  end.

Definition findall_cashtag (s : string) : list string :=
  findall_cashtag_from 0 s.

(** the maximal runs of characters of class [p] in [s], left to right;
    [cur] is the run being read, reversed *)
Definition flush (cur : list ascii) : list string :=
  match cur with
  | [] => []
  | _ => [string_of_list_ascii (rev cur)]
  end.

Fixpoint runs_from (p : ascii -> bool) (cur : list ascii) (s : string)
  : list string :=
  match s with
  | EmptyString => flush cur
  | String c s' =>
      if p c then runs_from p (c :: cur) s'
      else flush cur ++ runs_from p [] s'
  end.

(** [re.findall(r"[A-Za-z0-9]+", s)] *)
Definition findall_alnum (s : string) : list string :=
  runs_from is_alnum [] s.

(** [re.findall(r"[A-Za-z0-9]{3,}", s)]: the quantifier is greedy, so a
    match is a whole run, and a run shorter than three holds no match *)
Definition findall_alnum3 (s : string) : list string :=
  filter (fun r => (3 <= String.length r)%nat) (findall_alnum s).

(** [\b] between two neighbours; a missing neighbour (either end of the
    text) counts as a non-word character.  The class is [\w] of ASCII:
    next to a character outside ASCII Python asks for its Unicode class,
    which these strings do not carry *)
Definition word_side (c : option ascii) : bool :=
  match c with Some a => is_word a | None => false end.

Definition is_boundary (before after : option ascii) : bool :=
  xorb (word_side before) (word_side after).

(** the rest of [\b p \b] once the opening [\b] holds: [p] literally, then
    [\b]; [before] is the character just read *)
Fixpoint match_literal_then_boundary (before : option ascii) (p s : string)
  : bool :=
  match p with
  | EmptyString => is_boundary before (head s)
  | String a p' =>
      match s with
      | String c s' =>
          Ascii.eqb a c && match_literal_then_boundary (Some c) p' s'
      | EmptyString => false
      end
  end.

Fixpoint search_word_from (before : option ascii) (p s : string) : bool :=
  (is_boundary before (head s) && match_literal_then_boundary before p s) ||
  match s with
  | EmptyString => false
  | String c s' => search_word_from (Some c) p s'
  end.

(** [bool(re.search(r"\b" + re.escape(p) + r"\b", s))] *)
Definition search_word (p s : string) : bool := search_word_from None p s.

End Re.

(** ** Python containers *)

Module Py.

(** [sorted(l)] and pandas' [sort_values] are stable: an element goes in
    front of the first one it is not greater than *)
Fixpoint insert_sorted {A} (leb : A -> A -> bool) (x : A) (l : list A)
  : list A :=
  match l with
  | [] => [x]
  | y :: l' => if leb x y then x :: l else y :: insert_sorted leb x l'
  end.

Definition sorted {A} (leb : A -> A -> bool) (l : list A) : list A :=
  foldr (insert_sorted leb) [] l.

(** a [dict]: keys in insertion order, one entry per key *)
Definition dict (V : Type) : Type := list (string * V).

Fixpoint dict_get {V} (k : string) (d : dict V) : option V :=
  match d with
  | [] => None
  | (k', v) :: d' => if String.eqb k k' then Some v else dict_get k d'
  end.

(** [k in d] *)
Definition dict_mem {V} (k : string) (d : dict V) : bool :=
  match dict_get k d with Some _ => true | None => false end.

(** [d[k] = v]: a known key keeps its place *)
Fixpoint dict_set {V} (k : string) (v : V) (d : dict V) : dict V :=
  match d with
  | [] => [(k, v)]
  | (k', v') :: d' =>
      if String.eqb k k' then (k, v) :: d' else (k', v') :: dict_set k v d'
  end.

Definition dict_keys {V} (d : dict V) : list string := map fst d.

End Py.

Import PyStr Re Py.


(** ** [difflib.get_close_matches] *)

Module Difflib.

Set Warnings "-inexact-float".

Definition float_of_nat (n : nat) : float :=
  PrimFloat.of_uint63 (Uint63.of_Z (Z.of_nat n)).

(** [_calculate_ratio(matches, length)] *)
Definition calculate_ratio (matches len : nat) : float :=
  if Nat.eqb len 0 then 1%float
  else (2 * float_of_nat matches / float_of_nat len)%float.

Definition count_char (c : ascii) (b : list ascii) : nat :=
  List.length (List.filter (Ascii.eqb c) b).

(** [__chain_b]: with [autojunk] and at least 200 elements in [b], an
    element that fills more than 1% of [b] (plus one) is left out of the
    index [b2j] *)
Definition popular (b : list ascii) (c : ascii) : bool :=
  Nat.leb 200 (List.length b) &&
  Nat.ltb (List.length b / 100 + 1) (count_char c b).

(** one pass of the inner loop of [find_longest_match]: [prev] is [j2len]
    laid out over the positions of [b], [diag] its value one place left *)
Fixpoint next_j2len (c : ascii) (b : list ascii) (diag : nat)
  (prev : list nat) : list nat :=
  match b, prev with
  | bj :: b', pj :: prev' =>
      (if Ascii.eqb c bj then S diag else 0) :: next_j2len c b' pj prev'
  | _, _ => []
  end.

Definition triple : Type := nat * nat * nat.

(** [if k > bestsize: besti, bestj, bestsize = i-k+1, j-k+1, k] *)
Fixpoint scan_row (i j : nat) (row : list nat) (best : triple) : triple :=
  match row with
  | [] => best
  | k :: row' =>
      scan_row i (S j) row'
        (if Nat.ltb (snd best) k then (i + 1 - k, j + 1 - k, k) else best)
  end.

Fixpoint longest_loop (pop : ascii -> bool) (b : list ascii) (i : nat)
  (a : list ascii) (j2len : list nat) (best : triple) : triple :=
  match a with
  | [] => best
  | c :: a' =>
      let row := if pop c then List.map (fun _ => 0) b
                 else next_j2len c b 0 j2len in
      longest_loop pop b (S i) a' row (scan_row i 0 row best)
  end.

(** the two loops that grow the block over equal neighbours *)
Fixpoint extend_left (fuel : nat) (a b : list ascii) (best : triple)
  : triple :=
  match fuel, best with
  | S fuel', (S i, S j, k) =>
      match a !! i, b !! j with
      | Some x, Some y =>
          if Ascii.eqb x y then extend_left fuel' a b (i, j, S k) else best
      | _, _ => best
      end
  | _, _ => best
  end.

Fixpoint extend_right (fuel : nat) (a b : list ascii) (best : triple)
  : triple :=
  match fuel, best with
  | S fuel', (i, j, k) =>
      match a !! (i + k), b !! (j + k) with
      | Some x, Some y =>
          if Ascii.eqb x y then extend_right fuel' a b (i, j, S k) else best
      | _, _ => best
      end
  | O, _ => best
  end.

(** [find_longest_match] on the slices [a] and [b] *)
Definition find_longest_match (pop : ascii -> bool) (a b : list ascii)
  : triple :=
  let best := longest_loop pop b 0 a (List.map (fun _ => 0) b) (0, 0, 0) in
  let best := extend_left (List.length a) a b best in
  extend_right (List.length a) a b best.

(** the sum of the sizes of [get_matching_blocks()]: the longest block, then
    the same to its left and to its right.  Both parts of [a] are shorter
    than [a], so [S (length a)] is fuel enough ([matches_in_fuel]). *)
Fixpoint matches_in (fuel : nat) (pop : ascii -> bool) (a b : list ascii)
  : nat :=
  match fuel with
  | O => 0
  | S fuel' =>
      let '(i, j, k) := find_longest_match pop a b in
      if Nat.eqb k 0 then 0
      else
        k
        + (if Nat.ltb 0 i && Nat.ltb 0 j
           then matches_in fuel' pop (take i a) (take j b) else 0)
        + (if Nat.ltb (i + k) (List.length a) && Nat.ltb (j + k) (List.length b)
           then matches_in fuel' pop (drop (i + k) a) (drop (j + k) b) else 0)
  end.

(** [SequenceMatcher(None, a, b).ratio()] *)
Definition ratio (a b : string) : float :=
  let la := list_ascii_of_string a in
  let lb := list_ascii_of_string b in
  calculate_ratio (matches_in (S (List.length la)) (popular lb) la lb)
                  (List.length la + List.length lb).

Fixpoint remove_one (c : ascii) (l : list ascii) : option (list ascii) :=
  match l with
  | [] => None
  | x :: l' =>
      if Ascii.eqb c x then Some l'
      else match remove_one c l' with
           | Some r => Some (x :: r)
           | None => None
           end
  end.

(** the size of the intersection of [a] and [b] as multisets *)
Fixpoint common_count (a b : list ascii) : nat :=
  match a with
  | [] => 0
  | c :: a' =>
      match remove_one c b with
      | Some b' => S (common_count a' b')
      | None => common_count a' b
      end
  end.

Definition quick_ratio (a b : string) : float :=
  let la := list_ascii_of_string a in
  let lb := list_ascii_of_string b in
  calculate_ratio (common_count la lb) (List.length la + List.length lb).

Definition real_quick_ratio (a b : string) : float :=
  let la := String.length a in
  let lb := String.length b in
  calculate_ratio (Nat.min la lb) (la + lb).

(** [(score1, x1) >= (score2, x2)] on tuples *)
Definition scored_geb (p q : float * string) : bool :=
  if PrimFloat.eqb (fst p) (fst q) then String.leb (snd q) (snd p)
  else PrimFloat.ltb (fst q) (fst p).

(** [get_close_matches(word, possibilities, n, cutoff)];
    [heapq.nlargest(n, result)] is [sorted(result, reverse=True)[:n]] *)
Definition get_close_matches_n (n : nat) (cutoff : float) (word : string)
  (possibilities : list string) : list string :=
  let result :=
    omap (fun x =>
            if PrimFloat.leb cutoff (real_quick_ratio x word)
               && PrimFloat.leb cutoff (quick_ratio x word)
               && PrimFloat.leb cutoff (ratio x word)
            then Some (ratio x word, x) else None)
         possibilities in
  List.map snd (take n (sorted scored_geb result)).

(** the call of the ticker mapper: [n=3, cutoff=0.85] *)
Definition get_close_matches : string -> list string -> list string :=
  get_close_matches_n 3 0.85%float.

(** a block [(i, j, k)] lies within [a] and [b] *)
Definition block_within (la lb : nat) (best : triple) : Prop :=
  (best.1.1 + best.2 ≤ la ∧ best.1.2 + best.2 ≤ lb)%nat.

(** the cells of [j2len] at the row [i], from the column [j0] on: a run that
    ends at [(i, j)] is no longer than [i + 1] and [j + 1] *)
Definition row_within (lb i j0 : nat) (row : list nat) : Prop :=
  ∀ idx v, row !! idx = Some v →
           (v ≤ S i ∧ v ≤ S (j0 + idx) ∧ j0 + idx < lb)%nat.

End Difflib.

(** ** The price directory *)

(** A CSV file as pandas reads it: the header, and the data rows; a cell is
    [None] where pandas holds a missing value and [Some s] with [s] the
    [str()] of its value otherwise. *)
Record csv_file : Type := CsvFile {
  csv_name : string;
  csv_columns : list string;
  csv_rows : list (list (option string));
}.

Module Path.

(** [fnmatch(name, "*.csv")] *)
Definition is_csv (name : string) : bool := ends_with ".csv" name.

(** [Path.stem]: the name without its last suffix; a name that is only
    [".csv"] has no suffix *)
Definition stem (name : string) : string :=
  if String.eqb name ".csv" then name
  else String.substring 0 (String.length name - 4) name.

Definition name_leb (f g : csv_file) : bool :=
  String.leb (csv_name f) (csv_name g).

(** [sorted(dir.glob("*.csv"))] *)
Definition sorted_glob_csv (dir : list csv_file) : list csv_file :=
  sorted name_leb (List.filter (fun f => is_csv (csv_name f)) dir).

End Path.

(** ** utils/ticker_mapper.py *)

Module TickerMapper.

(** an entry of the lookup: [{"ticker": .., "name": .., "aliases": [..]}] *)
Record meta : Type := Meta {
  m_ticker : string;
  m_name : option string;
  m_aliases : list string;
}.

Definition lookup_table : Type := dict meta.

(** [[c.lower().strip() for c in df.columns]] *)
Definition normalized_columns (f : csv_file) : list string :=
  List.map (fun c => strip (lower c)) (csv_columns f).

Fixpoint index_of (k : string) (l : list string) : option nat :=
  match l with
  | [] => None
  | x :: l' => if String.eqb k x then Some 0 else S <$> index_of k l'
  end.

(** [df.iloc[0][col]] for the first column that normalizes to [k]; no first
    row raises, and the handler leaves [name = None] *)
Definition first_row_at (k : string) (f : csv_file) : option string :=
  match csv_rows f, index_of k (normalized_columns f) with
  | row :: _, Some i => mjoin (row !! i)
  | _, _ => None
  end.

(** lines 18-34: the name column, then [str(name).strip()] *)
Definition guess_name (f : csv_file) : option string :=
  let cols := normalized_columns f in
  let raw :=
    if bool_decide ("name" ∈ cols) then first_row_at "name" f
    else if bool_decide ("company" ∈ cols) then first_row_at "company" f
    else None in
  strip <$> raw.

(** lines 36-43 *)
Definition name_tokens (name : string) : list string :=
  List.filter (fun token => Nat.ltb 2 (String.length token))
              (findall_alnum (lower name)).

Definition alias_set (ticker : string) (name : option string) : gset string :=
  let aliases : gset string := {[ lower ticker ]} in
  match name with
  | Some n =>
      if truthy n then aliases ∪ {[ lower n ]} ∪ list_to_set (name_tokens n)
      else aliases
  | None => aliases
  end.

(** line 45 *)
Definition make_entry (ticker : string) (name : option string) : meta :=
  {| m_ticker := ticker;
     m_name := name;
     m_aliases := sorted String.leb (elements (alias_set ticker name)) |}.

Definition build_ticker_lookup (prices_dir : list csv_file) : lookup_table :=
  foldl (fun lookup f =>
           let ticker := upper (Path.stem (csv_name f)) in
           dict_set ticker (make_entry ticker (guess_name f)) lookup)
        [] (Path.sorted_glob_csv prices_dir).

Section Detect.

(** [difflib.get_close_matches(tok, alias_list, n=3, cutoff=0.85)]; the
    detector is read over any such function. *)
Variable get_close_matches : string -> list string -> list string.

Definition add_if (b : bool) (t : string) (found : gset string)
  : gset string :=
  if b then found ∪ {[ t ]} else found.

(** 1) [$TICKER] pattern *)
Definition layer_cashtag (text : string) (lookup : lookup_table)
  (found : gset string) : gset string :=
  foldl (fun found m => let t := upper m in add_if (dict_mem t lookup) t found)
        found (findall_cashtag text).

(** 2) exact ticker token (word boundary) *)
Definition layer_exact (text_lower : string) (lookup : lookup_table)
  (found : gset string) : gset string :=
  foldl (fun found '(t, _) => add_if (search_word (lower t) text_lower) t found)
        found lookup.

(** 3) company name / alias substring match *)
Definition alias_hit (text_lower : string) (m : meta) : bool :=
  existsb (fun alias => truthy alias && contains alias text_lower)
          (m_aliases m).

Definition name_hit (text_lower : string) (m : meta) : bool :=
  match m_name m with
  | Some name => truthy name && contains (lower name) text_lower
  | None => false
  end.

Definition layer_alias (text_lower : string) (lookup : lookup_table)
  (found : gset string) : gset string :=
  foldl (fun found '(t, m) =>
           let found := add_if (alias_hit text_lower m) t found in
           if bool_decide (t ∈ found) then found
           else add_if (name_hit text_lower m) t found)
        found lookup.

Definition layers_1_3 (text : string) (lookup : lookup_table) : gset string :=
  layer_alias (lower text) lookup
    (layer_exact (lower text) lookup
       (layer_cashtag text lookup ∅)).

(** 4) fuzzy fallback: the reverse map and the vocabulary *)
Definition alias_map (lookup : lookup_table) : gmap string string :=
  foldl (fun am '(t, m) => foldl (fun am a => <[a := t]> am) am (m_aliases m))
        ∅ lookup.

Definition alias_list (lookup : lookup_table) : list string :=
  concat (List.map (fun '(_, m) => m_aliases m) lookup).

Definition layer_fuzzy (text_lower : string) (lookup : lookup_table)
  (found : gset string) : gset string :=
  foldl (fun found tok =>
           foldl (fun found m =>
                    match alias_map lookup !! m with
                    | Some t => found ∪ {[ t ]}
                    | None => found   (* [None] is dropped by the final filter *)
                    end)
                 found (get_close_matches tok (alias_list lookup)))
        found (findall_alnum3 text_lower).

(** the set [found] once the four layers have run *)
Definition found_set (text : string) (lookup : lookup_table) : gset string :=
  let found := layers_1_3 text lookup in
  if bool_decide (found = ∅) then layer_fuzzy (lower text) lookup found
  else found.

Definition detect_tickers_in_text (text : string) (lookup : lookup_table)
  : list string :=
  if negb (truthy text) || bool_decide (lookup = [])
  then []
  else sorted String.leb (List.filter truthy (elements (found_set text lookup))).

End Detect.

End TickerMapper.

Import TickerMapper.

Definition apple_csv : csv_file :=
  CsvFile "aapl.csv" ["Date"; "Close"; " Name "]
          [[Some "2024-01-02"; Some "185.6"; Some " Apple Inc "]].
Definition msft_csv : csv_file :=
  CsvFile "MSFT.csv" ["date"; "close"; "company"]
          [[Some "2024-01-02"; Some "370.9"; Some "Microsoft Corporation"]].
Definition bare_csv : csv_file :=
  CsvFile "ibm.csv" ["date"; "close"] [[Some "2024-01-02"; Some "161.5"]].

Definition demo_lookup : lookup_table :=
  build_ticker_lookup [msft_csv; bare_csv; apple_csv; CsvFile "notes.txt" [] []].

(** ** app.py: the event-window helper *)

Module EventStudy.

(** a pandas timestamp: the calendar day (days since the epoch) and the
    time within the day *)
Record timestamp : Type := Timestamp {
  ts_day : Z;
  ts_time : Z;
}.

(** [pd.to_datetime(ts).dt.date] followed by [date + timedelta(days=d)] work
    on the day alone *)
Definition to_date (ts : timestamp) : timestamp :=
  {| ts_day := ts_day ts; ts_time := 0 |}.

(** a row of [price_df]: the columns ['ticker', 'date', 'close'] *)
Record price_point : Type := PricePoint {
  pp_ticker : string;
  pp_date : timestamp;
  pp_close : float;
}.

(** a row of [price_df] once [daily_return] is computed *)
Record price_row : Type := PriceRow {
  ticker : string;
  date : Z;
  close : float;
  daily_return : float;
}.

(** a cell of the [detected_ticker] / [detected_tickers] columns *)
Inductive cell : Type :=
| CNone
| CNaN
| CStr (s : string)
| CList (l : list string).

(** a row of [exploded_events_df]; [event_date] is [None] for [NaT], and
    [title] stands for the columns the helper carries through *)
Record event : Type := Event {
  detected_ticker : cell;
  detected_tickers : cell;
  event_date : option Z;
  title : string;
}.

(** a row of the result: the event's columns, [ar_1 .. ar_N] and [car_1_3] *)
Record window_row : Type := WindowRow {
  w_event : event;
  ar : list (option float);
  car_1_3 : option float;
}.

(** *** Preprocessing of the prices (lines 26-37) *)

(** line 28 *)
Definition normalize_date (p : price_point) : price_point :=
  {| pp_ticker := pp_ticker p; pp_date := to_date (pp_date p);
     pp_close := pp_close p |}.

(** the order of [sort_values(["ticker", "date"])] *)
Definition timestamp_leb (a b : timestamp) : bool :=
  (ts_day a <? ts_day b)%Z
  || ((ts_day a =? ts_day b)%Z && (ts_time a <=? ts_time b)%Z).

Definition price_leb (p q : price_point) : bool :=
  String.ltb (pp_ticker p) (pp_ticker q)
  || (String.eqb (pp_ticker p) (pp_ticker q)
      && timestamp_leb (pp_date p) (pp_date q)).

(** line 29 *)
Definition sort_prices (rows : list price_point) : list price_point :=
  sorted price_leb rows.

(** lines 32-34: [groupby("ticker")["close"].shift(1)] hands each row the
    close of the row before it in its group, NaN to the first; [last] holds
    the latest close seen per ticker.  Then [close / prev_close - 1]. *)
Fixpoint add_daily_return (last : gmap string float) (rows : list price_point)
  : list price_row :=
  match rows with
  | [] => []
  | p :: rows' =>
      let prev_close := default nan (last !! pp_ticker p) in
      {| ticker := pp_ticker p;
         date := ts_day (pp_date p);
         close := pp_close p;
         daily_return := (pp_close p / prev_close - 1)%float |}
      :: add_daily_return (<[pp_ticker p := pp_close p]> last) rows'
  end.

Definition prepare_prices (prices : list price_point) : list price_row :=
  add_daily_return ∅ (sort_prices (List.map normalize_date prices)).

(** line 37: [{t: g.set_index("date") for t, g in price_df.groupby("ticker")}] *)
Definition ticker_groups (rows : list price_row) : gmap string (list price_row) :=
  foldl (fun (groups : gmap string (list price_row)) r =>
           <[ticker r := (default [] (groups !! ticker r) ++ [r])%list]> groups)
        ∅ rows.

(** *** The loop over the events (lines 40-88) *)

(** lines 40-44 *)
Definition init_row (forward_days : nat) (e : event) : window_row :=
  {| w_event := e; ar := replicate forward_days None; car_1_3 := None |}.

(** [out.at[i, f"ar_{d}"] = v] *)
Definition set_ar (i d : nat) (v : option float) (out : list window_row)
  : list window_row :=
  alter (fun r => {| w_event := w_event r;
                     ar := <[(d - 1)%nat := v]> (ar r);
                     car_1_3 := car_1_3 r |}) i out.

(** [out.at[i, "car_1_3"] = v] *)
Definition set_car (i : nat) (v : option float) (out : list window_row)
  : list window_row :=
  alter (fun r => {| w_event := w_event r; ar := ar r; car_1_3 := v |}) i out.

(** [bool(t)] *)
Definition cell_truthy (t : cell) : bool :=
  match t with
  | CNone => false
  | CNaN => true
  | CStr s => truthy s
  | CList l => match l with [] => false | _ => true end
  end.

(** lines 48-51 *)
Definition pick_ticker (row : event) : cell :=
  let t := if cell_truthy (detected_ticker row) then detected_ticker row
           else detected_tickers row in
  match t with
  | CList (x :: _) => CStr x
  | _ => t
  end.

(** lines 52-59: [None] when [not t or pd.isna(t)], else [str(t).upper()] *)
Definition usable_ticker (row : event) : option string :=
  match pick_ticker row with
  | CStr s => if truthy s then Some (upper s) else None
  | _ => None
  end.

(** lines 54-56 and 62-64 *)
Definition clear_row (forward_days : nat) (i : nat) (out : list window_row)
  : list window_row :=
  set_car i None
    (foldl (fun out d => set_ar i d None out) out (seq 1 forward_days)).

(** lines 72-80: the daily return at the target date, the first one if the
    date is there more than once *)
Definition forward_return (price_ts : list price_row) (event_date : option Z)
  (d : nat) : option float :=
  match event_date with
  | Some e =>
      daily_return <$>
        List.find (fun r => (date r =? e + Z.of_nat d)%Z) price_ts
  | None => None
  end.

(** [sum(vals)] *)
Definition py_sum (vals : list float) : float :=
  foldl PrimFloat.add 0%float vals.

(** lines 84-88 *)
Definition car_of (ar_vals : list (option float)) : option float :=
  let numeric_vals := omap id ar_vals in
  match numeric_vals with
  | [] => None
  | _ => Some (py_sum numeric_vals)
  end.

(** the body of the loop for the row [i] *)
Definition process_row (groups : gmap string (list price_row))
  (forward_days : nat) (i : nat) (row : event) (out : list window_row)
  : list window_row :=
  match usable_ticker row with
  | None => clear_row forward_days i out
  | Some t =>
      match groups !! t with
      | None => clear_row forward_days i out
      | Some price_ts =>
          let '(out, ar_vals) :=
            foldl (fun '(out, ar_vals) d =>
                     let v := forward_return price_ts (event_date row) d in
                     (set_ar i d v out, (ar_vals ++ [v])%list))
                  (out, []) (seq 1 forward_days) in
          set_car i (car_of ar_vals) out
      end
  end.

(** [for i, row in out.iterrows()]: the row is read before its turn *)
Fixpoint event_loop (groups : gmap string (list price_row))
  (forward_days : nat) (todo : list nat) (out : list window_row)
  : list window_row :=
  match todo with
  | [] => out
  | i :: todo' =>
      match out !! i with
      | Some row =>
          event_loop groups forward_days todo'
            (process_row groups forward_days i (w_event row) out)
      | None => out
      end
  end.

(** [compute_event_windows(exploded_events_df, price_df, forward_days)] on
    the values of the two tables *)
Definition compute_event_windows (events : list event)
  (prices : list price_point) (forward_days : nat) : list window_row :=
  let groups := ticker_groups (prepare_prices prices) in
  let out := List.map (init_row forward_days) events in
  event_loop groups forward_days (seq 0 (List.length out)) out.

End EventStudy.

(** *** The same helper on a store of data frames

    A variable holds a reference to a frame.  [df.copy()], [sort_values],
    [reset_index] and [drop] make a new frame; [df[col] = ...] and
    [df.at[i, col] = ...] change the frame in place. *)

Module Store.
Import EventStudy.

Abbreviation loc := nat.

Inductive frame : Type :=
| PriceFrame (rows : list price_point)
| ReturnFrame (rows : list price_row)
| EventFrame (rows : list event)
| WindowFrame (rows : list window_row).

Abbreviation heap := (gmap loc frame).

(** a computation on the store; [None] is a raised exception *)
Definition M (A : Type) : Type := heap -> option (A * heap).

Definition ret {A} (a : A) : M A := fun h => Some (a, h).

Definition bind {A B} (m : M A) (k : A -> M B) : M B :=
  fun h => match m h with
           | Some (a, h') => k a h'
           | None => None
           end.

Definition raise {A} : M A := fun _ => None.

Definition alloc (f : frame) : M loc :=
  fun h => let l := fresh (dom h) in Some (l, <[l := f]> h).

Definition read (l : loc) : M frame :=
  fun h => match h !! l with
           | Some f => Some (f, h)
           | None => None
           end.

Definition write (l : loc) (f : frame) : M unit :=
  fun h => match h !! l with
           | Some _ => Some (tt, <[l := f]> h)
           | None => None
           end.

Notation "x <- m ;; k" := (bind m (fun x => k))
  (at level 100, m at next level, right associativity).
Notation "m ;;; k" := (bind m (fun _ => k))
  (at level 100, right associativity).

(** [df.copy()] *)
Definition copy (l : loc) : M loc := f <- read l ;; alloc f.

Definition read_prices (l : loc) : M (list price_point) :=
  f <- read l ;; match f with PriceFrame rows => ret rows | _ => raise end.

Definition read_returns (l : loc) : M (list price_row) :=
  f <- read l ;; match f with ReturnFrame rows => ret rows | _ => raise end.

Definition read_events (l : loc) : M (list event) :=
  f <- read l ;; match f with EventFrame rows => ret rows | _ => raise end.

Definition read_windows (l : loc) : M (list window_row) :=
  f <- read l ;; match f with WindowFrame rows => ret rows | _ => raise end.

(** lines 47-88 on the frame [out] *)
Fixpoint event_loop_st (groups : gmap string (list price_row))
  (forward_days : nat) (todo : list nat) (out : loc) : M unit :=
  match todo with
  | [] => ret tt
  | i :: todo' =>
      rows <- read_windows out ;;
      match rows !! i with
      | Some row =>
          write out
            (WindowFrame (process_row groups forward_days i (w_event row) rows)) ;;;
          event_loop_st groups forward_days todo' out
      | None => ret tt
      end
  end.

Definition compute_event_windows_st (exploded_events_df price_df : loc)
  (forward_days : nat) : M loc :=
  (* lines 27-29 *)
  price_df <- copy price_df ;;
  rows <- read_prices price_df ;;
  write price_df (PriceFrame (List.map normalize_date rows)) ;;;
  rows <- read_prices price_df ;;
  sorted_df <- alloc (PriceFrame (sort_prices rows)) ;;
  price_df <- copy sorted_df ;;
  (* lines 32-34 *)
  rows <- read_prices price_df ;;
  write price_df (ReturnFrame (add_daily_return ∅ rows)) ;;;
  price_df <- copy price_df ;;
  (* line 37 *)
  rows <- read_returns price_df ;;
  let groups := ticker_groups rows in
  (* lines 40-44 *)
  out <- copy exploded_events_df ;;
  out <- copy out ;;
  events <- read_events out ;;
  write out (WindowFrame (List.map (init_row forward_days) events)) ;;;
  (* lines 47-90 *)
  event_loop_st groups forward_days (seq 0 (List.length events)) out ;;;
  ret out.

End Store.

(** ** utils/data_loader.py *)

Module DataLoader.

Inductive exn : Type :=
| FileNotFoundError (message : string)
| ValueError (message : string).

(** a row of the panel: the required columns as read, [adj_close], and the
    ticker; [date] is the parsed day, [None] for [NaT] *)
Record panel_row : Type := PanelRow {
  p_date : option Z;
  p_open : option string;
  p_high : option string;
  p_low : option string;
  p_close : option string;
  p_volume : option string;
  p_adj_close : option string;
  p_ticker : string;
}.

Definition required : list string :=
  ["date"; "open"; "high"; "low"; "close"; "volume"].

Section Loader.

(** [str(DATA_DIR)] *)
Variable data_dir : string.
(** [repr] of a list of strings, as an f-string writes it *)
Variable repr_list : list string -> string.
(** [pd.to_datetime] on one cell, [None] where it gives [NaT] *)
Variable to_datetime : option string -> option Z.

Definition missing_dir_message : string :=
  "Price data folder not found: " +:+ data_dir +:+ String "010" "" +:+
  "Make sure your CSVs are in: <project_root>/data/prices/ and you run Streamlit from project root.".

Definition no_csv_message : string :=
  "No CSV files found in " +:+ data_dir +:+ ". " +:+
  "Check that files are named like AAPL.csv, MSFT.csv, etc.".

Definition missing_columns_message (f : csv_file) : string :=
  "CSV '" +:+ csv_name f +:+ "' is missing required columns." +:+
  String "010" "" +:+
  "Found columns: " +:+ repr_list (normalized_columns f) +:+
  String "010" "" +:+
  "Required (case-insensitive): " +:+ repr_list required.

(** [all(col in df.columns for col in required)] *)
Definition has_required (f : csv_file) : bool :=
  forallb (fun col => bool_decide (col ∈ normalized_columns f)) required.

(** [df[col]] in one row, for the first column that normalizes to [col] *)
Definition field (f : csv_file) (row : list (option string)) (col : string)
  : option string :=
  match index_of col (normalized_columns f) with
  | Some i => mjoin (row !! i)
  | None => None
  end.

(** lines 63-73 *)
Definition clean_row (f : csv_file) (row : list (option string)) : panel_row :=
  {| p_date := to_datetime (field f row "date");
     p_open := field f row "open";
     p_high := field f row "high";
     p_low := field f row "low";
     p_close := field f row "close";
     p_volume := field f row "volume";
     p_adj_close := field f row "close";
     p_ticker := upper (Path.stem (csv_name f)) |}.

(** lines 42-74: the frames of the files, up to the first that lacks a
    required column.  A required column is read from the first column of
    that name; this is the frame of the code for a file in which no two
    columns normalize to one required name (for two such columns
    [df[required]] keeps both, and pandas raises at lines 65-71) *)
Fixpoint load_frames (csv_files : list csv_file)
  : exn + list (list panel_row) :=
  match csv_files with
  | [] => inr []
  | f :: rest =>
      if has_required f then
        match load_frames rest with
        | inr frames => inr (List.map (clean_row f) (csv_rows f) :: frames)
        | inl e => inl e
        end
      else inl (ValueError (missing_columns_message f))
  end.

(** [NaT] sorts last *)
Definition date_leb (a b : option Z) : bool :=
  match a, b with
  | Some x, Some y => (x <=? y)%Z
  | _, None => true
  | None, Some _ => false
  end.

Definition panel_leb (a b : panel_row) : bool :=
  String.ltb (p_ticker a) (p_ticker b)
  || (String.eqb (p_ticker a) (p_ticker b) && date_leb (p_date a) (p_date b)).

(** [load_price_panel()]; the argument is the content of the data
    directory, [None] if there is no such directory *)
Definition load_price_panel (fs : option (list csv_file))
  : exn + list panel_row :=
  match fs with
  | None => inl (FileNotFoundError missing_dir_message)
  | Some dir =>
      match Path.sorted_glob_csv dir with
      | [] => inl (FileNotFoundError no_csv_message)
      | csv_files =>
          match load_frames csv_files with
          | inr all_frames => inr (sorted panel_leb (concat all_frames))
          | inl e => inl e
          end
      end
  end.

End Loader.

(** [repr] of a list of strings that hold no quote, backslash or control
    character *)
Definition repr_plain_list (l : list string) : string :=
  "[" +:+ String.concat ", " (List.map (fun s => "'" +:+ s +:+ "'") l) +:+ "]".

End DataLoader.

(** ** Vocabulary of the statements *)

(** a string made of characters of one class *)
Fixpoint all_chars (p : ascii -> bool) (s : string) : bool :=
  match s with
  | EmptyString => true
  | String c s' => p c && all_chars p s'
  end.

Definition head_is (p : ascii -> bool) (s : string) : bool :=
  match head s with Some c => p c | None => false end.

Definition last_is (p : ascii -> bool) (s : string) : bool :=
  match last s with Some c => p c | None => false end.


(** the entries of the lookup that layer 3 accepts *)
Definition alias_or_name_hit (text_lower : string) (m : meta) : bool :=
  alias_hit text_lower m || name_hit text_lower m.

(** an entry that a text of one space matches: the space is one of its
    aliases, or its display name *)
Definition blank_alias (m : meta) : Prop :=
  " " ∈ m_aliases m ∨ m_name m = Some " ".

#[global] Instance blank_alias_dec m : Decision (blank_alias m).
Proof. unfold blank_alias. apply _. Defined.

(** a file whose stem is one space, and the index [^GSPC] *)
Definition blank_csv : csv_file :=
  CsvFile " .csv" ["date"; "close"] [[Some "2024-01-02"; Some "1.0"]].

Definition gspc_csv : csv_file :=
  CsvFile "^GSPC.csv" ["Date"; "Close"] [[Some "2024-01-02"; Some "4742.83"]].

(** *** The event study, said per symbol *)

Module EventSpec.
Import EventStudy.

(** what one event gets from the price index *)
Definition window_returns (groups : gmap string (list price_row))
  (forward_days : nat) (e : event) : list (option float) :=
  match usable_ticker e with
  | Some t =>
      match groups !! t with
      | Some price_ts =>
          List.map (forward_return price_ts (event_date e)) (seq 1 forward_days)
      | None => replicate forward_days None
      end
  | None => replicate forward_days None
  end.

Definition window_of (groups : gmap string (list price_row))
  (forward_days : nat) (e : event) : window_row :=
  {| w_event := e;
     ar := window_returns groups forward_days e;
     car_1_3 := car_of (window_returns groups forward_days e) |}.

Definition day_leb (p q : price_point) : bool :=
  timestamp_leb (pp_date p) (pp_date q).

(** the observations of one symbol, by ascending date *)
Definition symbol_series (prices : list price_point) (s : string)
  : list price_point :=
  sorted day_leb
    (List.filter (fun p => String.eqb (pp_ticker p) s)
                 (List.map normalize_date prices)).

(** the place in a series of the record at a calendar day *)
Fixpoint position_of (series : list price_point) (day : Z) : option nat :=
  match series with
  | [] => None
  | p :: series' =>
      if (ts_day (pp_date p) =? day)%Z then Some 0%nat
      else S <$> position_of series' day
  end.

(** [daily_return[i] = close[i] / close[i-1] - 1] for [i > 0] *)
Definition return_of_observation (series : list price_point) (i : nat)
  : option float :=
  match i with
  | O => None
  | S k =>
      match series !! i, series !! k with
      | Some p, Some q => Some (pp_close p / pp_close q - 1)%float
      | _, _ => None
      end
  end.

(** Follows the design document: the daily return of the record at [day],
    [None] when there is no record or the record is the first observation. *)
Definition claimed_return (series : list price_point) (day : Z)
  : option float :=
  position_of series day ≫= return_of_observation series.

(** What the helper yields: the same, but NaN at the first observation. *)
Definition observed_return (series : list price_point) (day : Z)
  : option float :=
  match position_of series day with
  | Some O => Some nan
  | Some i => return_of_observation series i
  | None => None
  end.

(** the daily returns along one series, [prev] the close before it *)
Fixpoint series_returns (prev : option float) (series : list price_point)
  : list price_row :=
  match series with
  | [] => []
  | p :: series' =>
      {| ticker := pp_ticker p;
         date := ts_day (pp_date p);
         close := pp_close p;
         daily_return := (pp_close p / default nan prev - 1)%float |}
      :: series_returns (Some (pp_close p)) series'
  end.

(** an event of the symbol [s] at the day [e] *)
Definition event_on (s : string) (e : Z) : event :=
  {| detected_ticker := CStr s; detected_tickers := CNone;
     event_date := Some e; title := "headline" |}.

Definition price_on (s : string) (day : Z) (c : float) : price_point :=
  {| pp_ticker := s; pp_date := {| ts_day := day; ts_time := 57600 |};
     pp_close := c |}.

End EventSpec.

Import EventStudy EventSpec Store DataLoader.

Definition is_None_b {A} (v : option A) : bool :=
  match v with None => true | Some _ => false end.

(** Follows the design document: the sum of the non-None values, [None]
    when all are None. *)
Definition claimed_cumulative (ars : list (option float)) : option float :=
  if forallb is_None_b ars then None else Some (py_sum (omap id ars)).

(** [m] runs from [h] without raising and ends in a state that [Q] holds of *)
Definition post {A} (m : M A) (h : heap) (Q : A → heap → Prop) : Prop :=
  ∃ a h', m h = Some (a, h') ∧ Q a h'.

(** sample tables *)
Definition demo_prices : list price_point :=
  [price_on "MSFT" 11 10; price_on "AAPL" 12 98.98; price_on "AAPL" 10 100;
   price_on "AAPL" 11 101; price_on "MSFT" 9 8]%float.

Definition demo_events : list event :=
  [event_on "aapl" 10; event_on "MSFT" 8; event_on "IBM" 10;
   Event CNone (CList ["AAPL"; "MSFT"]) (Some 11%Z) "both";
   Event CNaN CNone (Some 10%Z) "nan"; Event (CStr "AAPL") CNone None "undated"].

Definition demo_heap : gmap nat frame :=
  {[ 0%nat := EventFrame demo_events; 1%nat := PriceFrame demo_prices ]}.

Definition no_volume_csv : csv_file :=
  CsvFile "TSLA.csv" ["Date"; "Open"; "High"; "Low"; " Close"]
          [[Some "2024-01-02"; Some "250.1"; Some "251.3"; Some "244.4"; Some "248.4"]].

Definition good_csv : csv_file :=
  CsvFile "AAPL.csv" ["Date"; "Open"; "High"; "Low"; "Close"; "Volume"]
          [[Some "2024-01-02"; Some "187.2"; Some "188.4"; Some "183.9"; Some "185.6";
            Some "82488700"]].

(** ** utils/news_loader.py *)

Module NewsLoader.
Import EventStudy.

(** an entry of the parsed feed; an attribute is [None] when the entry
    lacks it or holds [None].  A parsed time is given by the instant it
    denotes. *)
Record entry : Type := Entry {
  published_parsed : option Z;
  updated_parsed : option Z;
  e_title : option string;
  e_summary : option string;
  e_link : option string;
}.

(** [feedparser.parse(url)]: the entries, and [feed.feed.get("title")] *)
Record parsed_feed : Type := Feed {
  entries : list entry;
  feed_title : option string;
}.

Record news_item : Type := NewsItem {
  published : option timestamp;
  n_title : string;
  summary : string;
  link : string;
  source : string;
}.

(** [l[:n]]: a negative [n] counts from the end *)
Definition slice_to {A} (n : Z) (l : list A) : list A :=
  if (0 <=? n)%Z then take (Z.to_nat n) l
  else take (length l - Z.to_nat (- n)) l.

Section Feed.

(** [datetime.fromtimestamp(time.mktime(t), tz=timezone.utc)] *)
Variable fromtimestamp : Z -> timestamp.

(** lines 18-22 *)
Definition published_of (e : entry) : option timestamp :=
  match published_parsed e with
  | Some t => Some (fromtimestamp t)
  | None =>
      match updated_parsed e with
      | Some t => Some (fromtimestamp t)
      | None => None
      end
  end.

Definition parse_rss_feed (feed : parsed_feed) (max_items : Z)
  : list news_item :=
  List.map (fun e =>
              {| published := published_of e;
                 n_title := default "" (e_title e);
                 summary := default "" (e_summary e);
                 link := default "" (e_link e);
                 source := default "" (feed_title feed) |})
           (slice_to max_items (entries feed)).

End Feed.

End NewsLoader.

(** ** The two sentiment modules *)

(** a dict of the classifier, [{'label': .., 'score': ..}]; a key may be
    missing *)
Record classification : Type := Classification {
  c_label : option string;
  c_score : option float;
}.

(** *** utils/sentiment_analysis.py *)

Module Finbert.

Record scored : Type := Scored {
  label : string;
  score : float;
  numeric_sentiment : float;
}.

(** lines 37-45 *)
Definition score_result (r : classification) : scored :=
  let label := lower (default "" (c_label r)) in
  let score := default 0%float (c_score r) in
  let numeric :=
    if contains "neg" label then (- score)%float
    else if contains "pos" label then score
    else 0%float in
  {| label := label; score := score; numeric_sentiment := numeric |}.

Section Pipeline.

Variables tokenizer model pipeline_obj : Type.

(** the module's globals *)
Record globals : Type := Globals {
  _tokenizer : option tokenizer;
  _model : option model;
  _pipe : option pipeline_obj;
}.

(** what the three constructors of [transformers] give when they are
    called, [None] when the call raises *)
Record loaders : Type := Loaders {
  tokenizer_from_pretrained : option tokenizer;
  model_from_pretrained : option model;
  pipeline : model -> tokenizer -> option pipeline_obj;
}.

(** [get_finbert_pipeline()]: the result, [None] when a constructor raised,
    and the globals afterwards *)
Definition get_finbert_pipeline (env : loaders) (g : globals)
  : option pipeline_obj * globals :=
  match _pipe g with
  | Some p => (Some p, g)
  | None =>
      match tokenizer_from_pretrained env with
      | None => (None, g)
      | Some tok =>
          let g := {| _tokenizer := Some tok; _model := _model g;
                      _pipe := _pipe g |} in
          match model_from_pretrained env with
          | None => (None, g)
          | Some mdl =>
              let g := {| _tokenizer := _tokenizer g; _model := Some mdl;
                          _pipe := _pipe g |} in
              match pipeline env mdl tok with
              | None => (None, g)
              | Some p =>
                  (Some p, {| _tokenizer := _tokenizer g; _model := _model g;
                              _pipe := Some p |})
              end
          end
      end
  end.

(** [pipe(headlines, batch_size=batch_size)], [None] when it raises *)
Variable run : pipeline_obj -> list string -> nat -> option (list classification).

Definition analyze_headlines (env : loaders) (headlines : list string)
  (batch_size : nat) (g : globals) : option (list scored) * globals :=
  match headlines with
  | [] => (Some [], g)
  | _ =>
      match get_finbert_pipeline env g with
      | (Some pipe, g) =>
          (List.map score_result <$> run pipe headlines batch_size, g)
      | (None, g) => (None, g)
      end
  end.

End Pipeline.

Arguments Globals {_ _ _}.
Arguments _tokenizer {_ _ _}.
Arguments _model {_ _ _}.
Arguments _pipe {_ _ _}.
Arguments Loaders {_ _ _}.
Arguments tokenizer_from_pretrained {_ _ _}.
Arguments model_from_pretrained {_ _ _}.
Arguments pipeline {_ _ _}.
Arguments get_finbert_pipeline {_ _ _}.
Arguments analyze_headlines {_ _ _}.

End Finbert.

(** *** modules/sentiment_analysis.py *)

Module Sentiment.

(** an element of the pipeline's output: a dict, or a list of dicts *)
Inductive pipe_item : Type :=
| Single (c : classification)
| Ranked (l : list classification).

(** lines 29-39; [item[0]] raises on an empty list *)
Definition _score (item : pipe_item) : option float :=
  let item := match item with
              | Ranked l => List.hd_error l
              | Single c => Some c
              end in
  (fun c =>
     let label := lower (default "" (c_label c)) in
     let score := default 0%float (c_score c) in
     if contains "pos" label then score
     else if contains "neg" label then (- score)%float
     else 0%float) <$> item.

(** [any(w in txt for w in words)] *)
Definition any_in (words : list string) (txt : string) : bool :=
  existsb (fun w => contains w txt) words.

(** lines 45-56 *)
Definition heuristic (t : string) : float :=
  let txt := lower t in
  let s := 0%float in
  let s := if any_in ["gain"; "up"; "positive"; "beat"; "raises"; "higher";
                      "expands"; "outperform"; "upbeat"] txt
           then (s + 0.6)%float else s in
  let s := if any_in ["miss"; "cut"; "concern"; "down"; "lower"; "pulls back";
                      "warning"; "regulatory"; "misses"] txt
           then (s - 0.6)%float else s in
  let s := if any_in ["profit taking"; "profit-taking"; "pull back";
                      "pulls back"] txt
           then (s - 0.2)%float else s in
  let s := if PrimFloat.ltb 1 s then 1%float else s in
  let s := if PrimFloat.ltb s (-1) then (-1)%float else s in
  s.

(** [get_sentiment(headlines)]; [pipe] stands for loading the pipeline and
    running it on the texts, [None] when either raises *)
Definition get_sentiment (pipe : list string -> option (list pipe_item))
  (headlines : list string) : list float :=
  let texts := headlines in
  match pipe texts ≫= mapM _score with
  | Some scores => scores
  | None => List.map heuristic texts
  end.

End Sentiment.

(** ** utils/ticker_mapper.py: one row per headline and symbol *)

Module Explode.

(** [row.get("title", "")]: no such column, [None], NaN, or a string *)
Inductive title_cell : Type :=
| NoTitle
| TitleNone
| TitleNaN
| TitleStr (s : string).

(** [str(..)] of it *)
Definition str (c : title_cell) : string :=
  match c with
  | NoTitle => ""
  | TitleNone => "None"
  | TitleNaN => "nan"
  | TitleStr s => s
  end.

Section Rows.

Variable get_close_matches : string -> list string -> list string.
(** the rows of [df_news], and their [title] *)
Variable row : Type.
Variable title_of : row -> title_cell.

(** a row of the result: the row it comes from and [detected_ticker] *)
Definition explode_news_by_ticker (df_news : list row) (lookup : lookup_table)
  : list (row * option string) :=
  flat_map (fun row =>
              let title := str (title_of row) in
              let detected :=
                detect_tickers_in_text get_close_matches title lookup in
              match detected with
              | [] => [(row, None)]
              | _ => List.map (fun t => (row, Some t)) detected
              end)
           df_news.

End Rows.

Arguments explode_news_by_ticker _ {_}.

End Explode.

(** ** app.py: from the headlines to the event windows (lines 143-196) *)

Module App.
Import EventStudy NewsLoader.

(** a row of [merged]: the news item, [detected_tickers] and [event_date] *)
Record merged_row : Type := Merged {
  m_item : news_item;
  m_detected_tickers : list string;
  m_event_date : option Z;
}.

(** a row of [exploded_df]: the row of [merged] and [detected_ticker] *)
Record exploded_row : Type := Exploded {
  x_row : merged_row;
  x_detected_ticker : string;
}.

(** the columns of an exploded row that [compute_event_windows] reads *)
Definition as_event (x : exploded_row) : event :=
  {| detected_ticker := CStr (x_detected_ticker x);
     detected_tickers := CList (m_detected_tickers (x_row x));
     event_date := m_event_date (x_row x);
     title := n_title (m_item (x_row x)) |}.

Section Main.

Variable get_close_matches : string -> list string -> list string.

(** lines 143-146 *)
Definition detect_column (ticker_lookup : lookup_table)
  (df_news : list news_item) : list merged_row :=
  List.map (fun item =>
              {| m_item := item;
                 m_detected_tickers :=
                   detect_tickers_in_text get_close_matches (n_title item)
                                          ticker_lookup;
                 m_event_date := ts_day <$> published item |})
           df_news.

(** lines 154-164 *)
Definition explode (merged : list merged_row) : list exploded_row :=
  flat_map (fun r =>
              match m_detected_tickers r with
              | [] => []
              | tickers => List.map (fun tk => Exploded r tk) tickers
              end)
           merged.

(** line 172 *)
Definition needed_tickers (exploded : list exploded_row) : list string :=
  sorted String.leb
    (elements (list_to_set
                 (List.map (fun x => upper (x_detected_ticker x)) exploded)
               : gset string)).

(** lines 179-182: the first and the last day asked of the price source;
    [min] of no date raises *)
Definition fetch_range (event_dates : list Z) : option (Z * Z) :=
  match event_dates with
  | [] => None
  | d :: ds => Some (foldl Z.min d ds - 5, foldl Z.max d ds + 5)%Z
  end.

(** line 196 *)
Definition event_windows (exploded : list exploded_row)
  (price_df_for_events : list price_point) : list window_row :=
  compute_event_windows (List.map as_event exploded) price_df_for_events 3.

End Main.

End App.

(** *** More vocabulary *)

(** the files that give the key [k] *)
Definition gives_key (k : string) (f : csv_file) : bool :=
  String.eqb (upper (Path.stem (csv_name f))) k.

(** the ticker and the calendar day of a price row *)
Definition price_key (p : EventStudy.price_point) : string * Z :=
  (EventStudy.pp_ticker p, EventStudy.ts_day (EventStudy.pp_date p)).

(** the cleaned rows of the files, file after file *)
Definition cleaned_rows (to_datetime : option string -> option Z)
  (csv_files : list csv_file) : list DataLoader.panel_row :=
  concat (List.map (fun f => List.map (DataLoader.clean_row to_datetime f)
                                      (csv_rows f))
                   csv_files).



(** each required name is the name of at most one column of the file, once
    the names are lowercased and stripped *)
Definition required_once (f : csv_file) : bool :=
  forallb (fun col =>
             Nat.leb (length (List.filter (String.eqb col)
                                          (normalized_columns f))) 1)
          DataLoader.required.

(** the entries that list the alias [a] *)
Definition lists_alias (a : string) (e : string * meta) : bool :=
  bool_decide (a ∈ m_aliases e.2).

(** * Properties *)

(** ** Worked examples *)

Example lower_AAPL : lower "AAPL $x_9" = "aapl $x_9".
Proof. reflexivity. Qed.

Example cashtag_scan :
  findall_cashtag "buy $AAPL, $msftXYZQ and $1 $$T" = ["AAPL"; "msftXY"; "T"].
Proof. reflexivity. Qed.

Example alnum_scan :
  findall_alnum "apple inc. (co) x1" = ["apple"; "inc"; "co"; "x1"].
Proof. reflexivity. Qed.

Example word_search :
  search_word "aapl" "buy aapl now" = true /\
  search_word "aapl" "buy aaplx now" = false /\
  search_word "aapl" "aapl_x" = false /\
  search_word "^gspc" "^gspc" = false.
Proof. repeat split; reflexivity. Qed.

Example ratio_microsft :
  Difflib.ratio "microsoft" "microsft" = (16 / 17)%float /\
  Difflib.ratio "apple" "aple" = (8 / 9)%float /\
  Difflib.ratio "abcd" "bcde" = 0.75%float.
Proof. repeat split; vm_compute; reflexivity. Qed.

Example close_matches_example :
  Difflib.get_close_matches "microsft" ["aapl"; "apple"; "msft"; "microsoft"]
  = ["microsoft"].
Proof. vm_compute. reflexivity. Qed.

Example demo_lookup_value :
  demo_lookup =
  [("MSFT", Meta "MSFT" (Some "Microsoft Corporation")
              ["corporation"; "microsoft"; "microsoft corporation"; "msft"]);
   ("AAPL", Meta "AAPL" (Some "Apple Inc") ["aapl"; "apple"; "apple inc"; "inc"]);
   ("IBM", Meta "IBM" None ["ibm"])].
Proof. vm_compute. reflexivity. Qed.

Example detect_examples :
  let detect := detect_tickers_in_text Difflib.get_close_matches in
  detect "Buy $msft and AAPL today" demo_lookup = ["AAPL"; "MSFT"] /\
  detect "Microsft rallies" demo_lookup = ["MSFT"] /\
  detect "Apple rallies, microsft too" demo_lookup = ["AAPL"] /\
  detect "nothing here" demo_lookup = [] /\
  detect "" demo_lookup = [] /\
  detect "AAPL" [] = [].
Proof. vm_compute. repeat split; reflexivity. Qed.

(** ** Sorting *)

Section SortedFacts.
Context {A : Type} (leb : A -> A -> bool).

Lemma insert_sorted_Permutation x l : insert_sorted leb x l ≡ₚ x :: l.
Proof.
  induction l as [|y l IH]; simpl; [done|].
  destruct (leb x y); [done|]. by rewrite IH, Permutation_swap.
Qed.

Lemma sorted_Permutation l : sorted leb l ≡ₚ l.
Proof.
  induction l as [|x l IH]; simpl; [done|].
  unfold sorted in *. simpl. by rewrite insert_sorted_Permutation, IH.
Qed.

Lemma elem_of_sorted x l : x ∈ sorted leb l ↔ x ∈ l.
Proof. by rewrite sorted_Permutation. Qed.

Lemma NoDup_sorted l : NoDup l → NoDup (sorted leb l).
Proof. by rewrite sorted_Permutation. Qed.

Lemma length_sorted l : length (sorted leb l) = length l.
Proof. by rewrite sorted_Permutation. Qed.

Hypothesis leb_total : ∀ x y, leb x y = true ∨ leb y x = true.

Lemma insert_sorted_Sorted x l :
  Sorted (λ a b, leb a b = true) l →
  Sorted (λ a b, leb a b = true) (insert_sorted leb x l).
Proof.
  induction 1 as [|y l Hs IH Hhd]; simpl; [by repeat constructor|].
  destruct (leb x y) eqn:E.
  - by repeat constructor.
  - constructor; [done|].
    destruct Hhd as [|z l Hyz]; simpl.
    + constructor. destruct (leb_total x y); congruence.
    + destruct (leb x z); constructor; [|done].
      destruct (leb_total x y); congruence.
Qed.

Lemma sorted_Sorted l : Sorted (λ a b, leb a b = true) (sorted leb l).
Proof.
  induction l; simpl; [constructor|]. by apply insert_sorted_Sorted.
Qed.

Hypothesis leb_trans : ∀ x y z, leb x y = true → leb y z = true → leb x z = true.

Lemma sorted_StronglySorted l :
  StronglySorted (λ a b, leb a b = true) (sorted leb l).
Proof.
  apply Sorted_StronglySorted; [|apply sorted_Sorted].
  intros x y z. apply leb_trans.
Qed.
End SortedFacts.

(** ** The sequence matcher *)

Section MatcherFacts.
Import Difflib.

Lemma next_j2len_within c b lb i j0 diag prev :
  (j0 + length b ≤ lb)%nat →
  (diag ≤ i ∧ diag ≤ j0)%nat →
  (∀ idx v, prev !! idx = Some v → (v ≤ i ∧ v ≤ S (j0 + idx))%nat) →
  row_within lb i j0 (next_j2len c b diag prev).
Proof.
  revert j0 diag prev. induction b as [|bj b IH]; intros j0 diag prev Hb Hd Hp.
  { intros idx v. by destruct prev. }
  destruct prev as [|pj prev]; [by intros idx v|].
  simpl in *. intros [|idx] v; simpl.
  - intros [= <-]. destruct (Ascii.eqb c bj); lia.
  - intros Hv.
    assert (pj ≤ i ∧ pj ≤ S j0)%nat as Hpj.
    { destruct (Hp 0%nat pj eq_refl). split; lia. }
    destruct (IH (S j0) pj prev) with (idx := idx) (v := v) as (? & ? & ?);
      [lia|done| |done|lia].
    intros idx' v' Hv'. destruct (Hp (S idx') v' Hv'). split; lia.
Qed.

Lemma zero_row_within (b : list ascii) lb i :
  (length b ≤ lb)%nat → row_within lb i 0 (List.map (λ _, 0%nat) b).
Proof.
  intros Hb idx v. change (List.map ?f b) with (f <$> b).
  rewrite list_lookup_fmap. intros Hv.
  destruct (b !! idx) eqn:E; [|done]. apply lookup_lt_Some in E.
  simpl in Hv. injection Hv as <-. lia.
Qed.

Lemma row_within_weaken lb i j0 row :
  row_within lb i j0 row →
  ∀ idx v, row !! idx = Some v → (v ≤ S i ∧ v ≤ S (j0 + idx))%nat.
Proof. intros H idx v Hv. destruct (H idx v Hv) as (? & ? & ?). lia. Qed.

Lemma scan_row_within la lb i j row best :
  (i < la)%nat → row_within lb i j row →
  block_within la lb best → block_within la lb (scan_row i j row best).
Proof.
  intros Hi. revert j best. induction row as [|v row IH]; intros j best Hrow Hb;
    [done|].
  simpl. apply IH.
  - intros idx w Hw. destruct (Hrow (S idx) w Hw) as (? & ? & ?). lia.
  - destruct (Hrow 0%nat v eq_refl) as (? & ? & ?).
    destruct (Nat.ltb (snd best) v); [|done].
    unfold block_within. simpl. lia.
Qed.

Lemma longest_loop_within pop b la i a j2len best :
  (i + length a ≤ la)%nat →
  (∀ idx v, j2len !! idx = Some v → (v ≤ i ∧ v ≤ S idx)%nat) →
  block_within la (length b) best →
  block_within la (length b) (longest_loop pop b i a j2len best).
Proof.
  revert i j2len best. induction a as [|c a IH]; intros i j2len best Hi Hrow Hb;
    [done|].
  simpl in *.
  assert (row_within (length b) i 0
            (if pop c then List.map (λ _, 0%nat) b else next_j2len c b 0 j2len))
    as Hnew.
  { destruct (pop c); [by apply zero_row_within|].
    apply next_j2len_within; [lia|lia|]. intros idx v Hv.
    destruct (Hrow idx v Hv). simpl. lia. }
  apply IH; [lia| |].
  - intros idx v Hv. by destruct (row_within_weaken _ _ _ _ Hnew idx v Hv).
  - apply scan_row_within; [lia|done..].
Qed.

Lemma extend_left_within fuel a b best :
  block_within (length a) (length b) best →
  block_within (length a) (length b) (extend_left fuel a b best).
Proof.
  revert best. induction fuel as [|fuel IH]; intros [[i j] k] H; [done|].
  simpl. destruct i as [|i], j as [|j]; try done.
  destruct (a !! i), (b !! j); try done.
  destruct (Ascii.eqb _ _); [|done]. apply IH.
  unfold block_within in *. simpl in *. lia.
Qed.

Lemma extend_right_within fuel a b best :
  block_within (length a) (length b) best →
  block_within (length a) (length b) (extend_right fuel a b best).
Proof.
  revert best. induction fuel as [|fuel IH]; intros [[i j] k] H; [done|].
  simpl. destruct (a !! (i + k)%nat) eqn:Ea; [|done].
  destruct (b !! (j + k)%nat) eqn:Eb; [|done].
  destruct (Ascii.eqb _ _); [|done]. apply IH.
  apply lookup_lt_Some in Ea, Eb.
  unfold block_within in *. simpl in *. lia.
Qed.

Lemma find_longest_match_within pop a b :
  block_within (length a) (length b) (find_longest_match pop a b).
Proof.
  unfold find_longest_match.
  apply extend_right_within, extend_left_within, longest_loop_within.
  - simpl. lia.
  - intros idx v. change (List.map ?f b) with (f <$> b).
    rewrite list_lookup_fmap. destruct (b !! idx); [|done].
    simpl. intros [= <-]. lia.
  - unfold block_within. simpl. lia.
Qed.

(** the count does not depend on the fuel, once there is more of it than
    [a] is long *)
Lemma matches_in_fuel pop fuel1 fuel2 a b :
  (length a < fuel1)%nat → (length a < fuel2)%nat →
  matches_in fuel1 pop a b = matches_in fuel2 pop a b.
Proof.
  revert fuel2 a b. induction fuel1 as [|fuel1 IH]; intros fuel2 a b H1 H2;
    [lia|].
  destruct fuel2 as [|fuel2]; [lia|]. simpl.
  pose proof (find_longest_match_within pop a b) as Hw.
  destruct (find_longest_match pop a b) as [[i j] k].
  unfold block_within in Hw. simpl in Hw.
  destruct (Nat.eqb_spec k 0) as [->|Hk]; [done|].
  f_equal; [f_equal|].
  - destruct (_ && _); [|done].
    apply IH; rewrite length_take; lia.
  - destruct (_ && _); [|done].
    apply IH; rewrite length_drop; lia.
Qed.
End MatcherFacts.

(** ** Strings and the regular expressions *)

Ltac each_char c :=
  destruct c as [[] [] [] [] [] [] [] []]; vm_compute; try reflexivity; try discriminate; auto.

Lemma ascii_compare_trans_le a b c :
  Ascii.compare a b <> Gt -> Ascii.compare b c <> Gt -> Ascii.compare a c <> Gt.
Proof.
  unfold Ascii.compare. rewrite !N.compare_le_iff. lia.
Qed.

Lemma string_compare_refl s : String.compare s s = Eq.
Proof.
  induction s as [|c s IH]; simpl; [done|].
  unfold Ascii.compare. by rewrite N.compare_refl.
Qed.

Lemma string_leb_trans s1 s2 s3 :
  String.leb s1 s2 = true -> String.leb s2 s3 = true -> String.leb s1 s3 = true.
Proof.
  unfold String.leb. revert s2 s3.
  induction s1 as [|a s1 IH]; intros [|b s2] [|c s3]; simpl; try done.
  unfold Ascii.compare.
  destruct (N.compare_spec (N_of_ascii a) (N_of_ascii b)) as [E1|L1|G1]; try done;
  destruct (N.compare_spec (N_of_ascii b) (N_of_ascii c)) as [E2|L2|G2]; try done.
  - rewrite E1, E2, N.compare_refl. apply IH.
  - intros _ _. rewrite E1. by rewrite (proj2 (N.compare_lt_iff _ _) L2).
  - intros _ _. rewrite <- E2. by rewrite (proj2 (N.compare_lt_iff _ _) L1).
  - intros _ _. assert (N_of_ascii a < N_of_ascii c)%N as L by lia.
    by rewrite (proj2 (N.compare_lt_iff _ _) L).
Qed.

Lemma app_cons c s t : String c s +:+ t = String c (s +:+ t).
Proof. reflexivity. Qed.



Lemma lower_char_is_word c : is_word (lower_char c) = is_word c.
Proof. each_char c. Qed.

Lemma dollar_not_letter : is_letter "$" = false.
Proof. reflexivity. Qed.

Lemma dollar_not_word : is_word "$" = false.
Proof. reflexivity. Qed.






Lemma last_cons_is_Some c s : is_Some (last (String c s)).
Proof.
  revert c. induction s as [|d s IH]; intros c; [by eexists|].
  change (last (String c (String d s))) with (last (String d s)). apply IH.
Qed.

Lemma match_self_then_boundary before p :
  word_side (from_option Some before (last p)) = true ->
  match_literal_then_boundary before p p = true.
Proof.
  revert before. induction p as [|c p IH]; intros before H.
  - simpl in *. unfold is_boundary. simpl. by rewrite H.
  - cbn [match_literal_then_boundary]. rewrite Ascii.eqb_refl. simpl. apply IH.
    destruct p as [|d p]; [done|].
    change (last (String c (String d p))) with (last (String d p)) in H.
    destruct (last_cons_is_Some d p) as [x Hx]. by rewrite Hx in *.
Qed.

Lemma search_word_self p :
  head_is is_word p = true -> last_is is_word p = true ->
  search_word p p = true.
Proof.
  unfold head_is, last_is, search_word. intros Hh Hl.
  destruct p as [|c p]; [done|].
  cbn [search_word_from]. apply orb_true_iff. left.
  apply andb_true_iff. split.
  - unfold is_boundary. simpl in *. by rewrite Hh.
  - apply match_self_then_boundary. destruct (last (String c p)); simpl in *; done.
Qed.

Lemma head_is_lower p s : (forall c, p (lower_char c) = p c) -> head_is p (lower s) = head_is p s.
Proof. intros H. destruct s; [done|]. unfold head_is. simpl. apply H. Qed.

Lemma last_lower s : last (lower s) = lower_char <$> last s.
Proof.
  induction s as [|c s IH]; [done|]. simpl. destruct s; [done|]. apply IH.
Qed.

Lemma last_is_lower p s : (forall c, p (lower_char c) = p c) -> last_is p (lower s) = last_is p s.
Proof. intros H. unfold last_is. rewrite last_lower. destruct (last s); simpl; [apply H|done]. Qed.

Lemma starts_with_app p s : starts_with p (p +:+ s) = true.
Proof.
  induction p as [|c p IH]; [done|].
  rewrite app_cons. simpl. by rewrite Ascii.eqb_refl.
Qed.

Lemma contains_app_r p a s : contains p s = true → contains p (a +:+ s) = true.
Proof.
  intros H. induction a as [|c a IH]; [done|].
  rewrite app_cons. cbn [contains]. rewrite IH. apply orb_true_r.
Qed.

Lemma contains_of_starts_with p s : starts_with p s = true → contains p s = true.
Proof. intros H. destruct s; simpl; by rewrite H. Qed.

Lemma contains_middle p a b : contains p (a +:+ p +:+ b) = true.
Proof. apply contains_app_r, contains_of_starts_with, starts_with_app. Qed.

Lemma truthy_iff s : truthy s = true ↔ s ≠ "".
Proof. by destruct s. Qed.

Lemma substring_whole s : String.substring 0 (String.length s) s = s.
Proof. induction s as [|c s IH]; [done|]. simpl. by rewrite IH. Qed.

Lemma length_substring_0 n s :
  String.length (String.substring 0 n s) = Nat.min n (String.length s).
Proof.
  revert n. induction s as [|c s IH]; intros [|n]; simpl; [done..|].
  by rewrite IH.
Qed.

Lemma upper_eq_empty s : upper s = "" → s = "".
Proof. by destruct s. Qed.

Lemma starts_with_refl s : starts_with s s = true.
Proof. induction s as [|c s IH]; [done|]. simpl. by rewrite Ascii.eqb_refl. Qed.

Lemma contains_refl s : contains s s = true.
Proof. apply contains_of_starts_with, starts_with_refl. Qed.

Lemma lower_not_empty s : s ≠ "" → lower s ≠ "".
Proof. by destruct s. Qed.

(** ** The price directory *)

Lemma elem_of_sorted_glob_csv f dir :
  f ∈ Path.sorted_glob_csv dir ↔ f ∈ dir ∧ Path.is_csv (csv_name f) = true.
Proof.
  unfold Path.sorted_glob_csv.
  by rewrite elem_of_sorted, list_elem_of_In, filter_In, <- list_elem_of_In.
Qed.

Lemma sorted_glob_csv_none dir :
  Forall (λ f, Path.is_csv (csv_name f) = false) dir →
  Path.sorted_glob_csv dir = [].
Proof.
  intros Hall. unfold Path.sorted_glob_csv.
  replace (List.filter _ dir) with (@nil csv_file); [done|].
  induction Hall as [|f dir Hf _ IH]; simpl; [done|]. by rewrite Hf.
Qed.

Lemma stem_not_empty name : Path.is_csv name = true → Path.stem name ≠ "".
Proof.
  unfold Path.is_csv, ends_with, Path.stem.
  intros [Hlen Hsuf]%andb_true_iff.
  destruct (String.eqb_spec name ".csv") as [->|Hne]; [done|].
  apply Nat.leb_le in Hlen. apply String.eqb_eq in Hsuf.
  change (String.length ".csv") with 4%nat in *.
  destruct (decide (String.length name = 4%nat)) as [E|E].
  - rewrite E in Hsuf. simpl in Hsuf.
    rewrite <- E, substring_whole in Hsuf. done.
  - intros H%(f_equal String.length). rewrite length_substring_0 in H.
    simpl in H. lia.
Qed.


(** ** The lookup table *)

Lemma elem_of_dict_set {V} k (v : V) d e :
  e ∈ dict_set k v d → e = (k, v) ∨ e ∈ d.
Proof.
  induction d as [|[k' v'] d IH]; simpl.
  - intros ->%list_elem_of_singleton. by left.
  - destruct (String.eqb k k').
    + intros [->|?]%elem_of_cons; [by left|right; by right].
    + intros [->|?]%elem_of_cons; [right; left|]. destruct IH; auto. right; by right.
Qed.

Lemma elem_of_name_tokens n a :
  a ∈ name_tokens n ↔ a ∈ findall_alnum (lower n) ∧ (2 < String.length a)%nat.
Proof.
  unfold name_tokens.
  rewrite list_elem_of_In, filter_In, <- list_elem_of_In, Nat.ltb_lt. done.
Qed.

Lemma elem_of_alias_set t name a :
  a ∈ alias_set t name ↔
    a = lower t
  ∨ ∃ n, name = Some n ∧ n ≠ "" ∧
         (a = lower n ∨ (a ∈ findall_alnum (lower n) ∧ (2 < String.length a)%nat)).
Proof.
  unfold alias_set. destruct name as [[|c n]|]; simpl.
  - set_solver.
  - rewrite !elem_of_union, !elem_of_singleton, elem_of_list_to_set, elem_of_name_tokens.
    split.
    + intros [[?|?]|?]; [by left|right; eexists; split_and!; eauto..].
    + intros [?|(n' & [= <-] & _ & [?|?])]; auto.
  - set_solver.
Qed.

Lemma elem_of_make_entry_aliases t name a :
  a ∈ m_aliases (make_entry t name) ↔ a ∈ alias_set t name.
Proof. simpl. by rewrite elem_of_sorted, elem_of_elements. Qed.

(** the entries of a built table: the key is not empty, and the entry is
    the one [make_entry] gives for the key and the stored name *)
Lemma build_ticker_lookup_entry dir t m :
  (t, m) ∈ build_ticker_lookup dir → t ≠ "" ∧ m = make_entry t (m_name m).
Proof.
  unfold build_ticker_lookup.
  assert (Forall (λ f, Path.is_csv (csv_name f) = true) (Path.sorted_glob_csv dir))
    as Hcsv.
  { apply Forall_forall. by intros f [_ ?]%elem_of_sorted_glob_csv. }
  revert Hcsv. generalize (Path.sorted_glob_csv dir) as files. intros files Hcsv.
  assert (∀ acc : lookup_table,
    (∀ t m, (t, m) ∈ acc → t ≠ "" ∧ m = make_entry t (m_name m)) →
    ∀ t m, (t, m) ∈ foldl (λ lookup f,
             let ticker := upper (Path.stem (csv_name f)) in
             dict_set ticker (make_entry ticker (guess_name f)) lookup) acc files →
           t ≠ "" ∧ m = make_entry t (m_name m)) as Hgen.
  { induction Hcsv as [|f files Hf _ IH]; intros acc Hacc t' m'; simpl;
      [apply Hacc|].
    apply IH. intros t'' m'' [[= -> ->]|?]%elem_of_dict_set; [|by apply Hacc].
    split; [|done]. by intros ?%upper_eq_empty%stem_not_empty. }
  apply Hgen. by intros ? ? ?%elem_of_nil.
Qed.

(** the lowercased ticker is an alias of its entry: a text that holds it is
    matched by layer 3 *)
Lemma alias_hit_own_ticker t name text_lower :
  t ≠ "" → contains (lower t) text_lower = true →
  alias_hit text_lower (make_entry t name) = true.
Proof.
  intros Ht Hc. unfold alias_hit. apply existsb_exists. exists (lower t).
  split.
  - apply list_elem_of_In, elem_of_make_entry_aliases, elem_of_alias_set.
    by left.
  - by rewrite Hc, andb_true_r, truthy_iff; apply lower_not_empty.
Qed.

(** C7.  In a table made by [build_ticker_lookup] the entry under [t] has
    the ticker [t], and its aliases are exactly: the lowercased [t] and,
    when the stored name is a non-empty string, the lowercased name and the
    alphanumeric tokens of the lowercased name that are longer than two
    characters.  (So a token of one or two characters is an alias only if
    it is the lowercased ticker or the whole lowercased name.) *)
Theorem built_entry_aliases dir t m :
  (t, m) ∈ build_ticker_lookup dir →
  m_ticker m = t ∧
  ∀ a, a ∈ m_aliases m ↔
         a = lower t
       ∨ ∃ n, m_name m = Some n ∧ n ≠ "" ∧
              (a = lower n
               ∨ (a ∈ findall_alnum (lower n) ∧ (2 < String.length a)%nat)).
Proof.
  intros Hin. apply build_ticker_lookup_entry in Hin as [_ Hin].
  split; [by rewrite Hin|]. intros a.
  rewrite Hin at 1. by rewrite elem_of_make_entry_aliases, elem_of_alias_set.
Qed.

Lemma built_entry_aliases_witness :
  let m := Meta "AAPL" (Some "Apple Inc") ["aapl"; "apple"; "apple inc"; "inc"] in
  ("AAPL", m) ∈ build_ticker_lookup [apple_csv]
  ∧ "aapl" ∈ m_aliases m ∧ "apple inc" ∈ m_aliases m
  ∧ "apple" ∈ m_aliases m ∧ "inc" ∈ m_aliases m.
Proof.
  cbn zeta.
  assert (("AAPL", Meta "AAPL" (Some "Apple Inc") ["aapl"; "apple"; "apple inc"; "inc"])
          ∈ build_ticker_lookup [apple_csv]) as Hin by (vm_compute; left).
  split; [exact Hin|].
  destruct (built_entry_aliases _ _ _ Hin) as [_ Hiff].
  split_and!; apply Hiff.
  - by left.
  - right. exists "Apple Inc". split_and!; [done..|by left].
  - right. exists "Apple Inc". split_and!; [done..|].
    right. split; [vm_compute; left|simpl; lia].
  - right. exists "Apple Inc". split_and!; [done..|].
    right. split; [vm_compute; right; left|simpl; lia].
Defined.

(** ** The layers of the detector *)

Lemma dict_mem_elem_of {V} k (d : dict V) :
  dict_mem k d = true ↔ k ∈ dict_keys d.
Proof.
  unfold dict_mem, dict_keys. induction d as [|[k' v] d IH]; simpl.
  - split; [done|]. by intros ?%elem_of_nil.
  - destruct (String.eqb_spec k k') as [->|Hne].
    + split; [left|done].
    + rewrite IH, elem_of_cons. naive_solver.
Qed.

Section LayerFacts.

Lemma elem_of_add_if b t found x :
  x ∈ add_if b t found ↔ x ∈ found ∨ (b = true ∧ x = t).
Proof. unfold add_if. destruct b; set_solver. Qed.

Lemma elem_of_layer_cashtag text lookup found x :
  x ∈ layer_cashtag text lookup found ↔
  x ∈ found ∨ ∃ m, m ∈ findall_cashtag text ∧ x = upper m ∧ dict_mem x lookup = true.
Proof.
  unfold layer_cashtag. generalize (findall_cashtag text) as ms.
  intros ms. revert found. induction ms as [|m ms IH]; intros found; simpl.
  - set_solver.
  - rewrite IH, elem_of_add_if. split.
    + intros [[?|[? ->]]|(m' & ? & ? & ?)]; [by left|right..].
      * exists m. split; [left|done].
      * exists m'. split; [by right|done].
    + intros [?|(m' & [->|?]%elem_of_cons & -> & ?)]; [by left; left| |].
      * left. by right.
      * right. by exists m'.
Qed.

Lemma elem_of_layer_exact text_lower lookup found x :
  x ∈ layer_exact text_lower lookup found ↔
  x ∈ found ∨ (x ∈ dict_keys lookup ∧ search_word (lower x) text_lower = true).
Proof.
  unfold layer_exact, dict_keys. revert found.
  induction lookup as [|[t m] lookup IH]; intros found; simpl.
  - set_solver.
  - rewrite IH, elem_of_add_if, elem_of_cons. naive_solver.
Qed.

Lemma elem_of_layer_alias text_lower lookup found x :
  x ∈ layer_alias text_lower lookup found ↔
  x ∈ found ∨ ∃ m, (x, m) ∈ lookup ∧ alias_or_name_hit text_lower m = true.
Proof.
  unfold layer_alias, alias_or_name_hit. revert found.
  induction lookup as [|[t m] lookup IH]; intros found; simpl.
  - set_solver.
  - rewrite IH. clear IH.
    assert (x ∈ (if bool_decide (t ∈ add_if (alias_hit text_lower m) t found)
                 then add_if (alias_hit text_lower m) t found
                 else add_if (name_hit text_lower m) t
                        (add_if (alias_hit text_lower m) t found))
            ↔ x ∈ found ∨ (x = t ∧ alias_hit text_lower m || name_hit text_lower m = true))
      as ->.
    { case_bool_decide as Hin; rewrite ?elem_of_add_if in *;
        rewrite orb_true_iff; [|tauto].
      split; [tauto|]. intros [?|[-> _]]; tauto. }
    split.
    + intros [[?|[-> ?]]|(m' & ? & ?)]; [by left|right..].
      * exists m. split; [left|done].
      * exists m'. split; [by right|done].
    + intros [?|(m' & [[= -> ->]|?]%elem_of_cons & ?)]; [by left; left| |].
      * left. by right.
      * right. by exists m'.
Qed.

(** what the first three layers find, said without the loops *)
Lemma elem_of_layers_1_3 text lookup x :
  x ∈ layers_1_3 text lookup ↔
    (∃ m, m ∈ findall_cashtag text ∧ x = upper m ∧ dict_mem x lookup = true)
  ∨ (x ∈ dict_keys lookup ∧ search_word (lower x) (lower text) = true)
  ∨ (∃ m, (x, m) ∈ lookup ∧ alias_or_name_hit (lower text) m = true).
Proof.
  unfold layers_1_3.
  rewrite elem_of_layer_alias, elem_of_layer_exact, elem_of_layer_cashtag.
  set_solver.
Qed.

End LayerFacts.

Section DetectFacts.
Variable gcm : string -> list string -> list string.

Lemma layer_fuzzy_mono text_lower lookup found :
  found ⊆ layer_fuzzy gcm text_lower lookup found.
Proof.
  unfold layer_fuzzy. generalize (findall_alnum3 text_lower) as toks.
  intros toks. revert found. induction toks as [|tok toks IH]; intros found; simpl; [done|].
  etrans; [|apply IH].
  generalize (gcm tok (alias_list lookup)) as ms. intros ms. clear.
  revert found. induction ms as [|m ms IH]; intros found; simpl; [done|].
  etrans; [|apply IH]. destruct (alias_map lookup !! m); set_solver.
Qed.

Lemma layers_subseteq_found_set text lookup :
  layers_1_3 text lookup ⊆ found_set gcm text lookup.
Proof.
  unfold found_set. case_bool_decide; [|done]. apply layer_fuzzy_mono.
Qed.

Lemma found_set_no_fuzzy text lookup :
  layers_1_3 text lookup ≠ ∅ → found_set gcm text lookup = layers_1_3 text lookup.
Proof. unfold found_set. intros. by rewrite bool_decide_eq_false_2. Qed.

Lemma elem_of_detect text lookup x :
  x ∈ detect_tickers_in_text gcm text lookup ↔
  text ≠ "" ∧ lookup ≠ [] ∧ x ≠ "" ∧ x ∈ found_set gcm text lookup.
Proof.
  unfold detect_tickers_in_text.
  destruct text as [|c text]; simpl.
  { split; [by intros ?%elem_of_nil|naive_solver]. }
  case_bool_decide as Hl.
  { split; [by intros ?%elem_of_nil|naive_solver]. }
  rewrite elem_of_sorted, list_elem_of_In, filter_In, <- list_elem_of_In.
  rewrite elem_of_elements, truthy_iff. naive_solver.
Qed.
End DetectFacts.


Lemma upper_of_capitals s : all_chars is_upper s = true → upper s = s.
Proof.
  unfold upper. induction s as [|c s IH]; [done|]. simpl.
  intros [Hc Hs]%andb_true_iff. rewrite IH by done. f_equal.
  revert Hc. each_char c.
Qed.


Lemma lower_eq_empty s : lower s = "" → s = "".
Proof. by destruct s. Qed.

Lemma dict_mem_nonempty {V} k (d : dict V) : dict_mem k d = true → d ≠ [].
Proof. by destruct d. Qed.

Lemma search_word_in_empty p : search_word p "" = false.
Proof. reflexivity. Qed.

Lemma search_word_in_blank p : search_word p " " = false.
Proof. reflexivity. Qed.

Lemma contains_in_empty a : truthy a = true → contains a "" = false.
Proof. by destruct a. Qed.

Lemma contains_in_blank a : truthy a = true → contains a " " = true → a = " ".
Proof.
  destruct a as [|c [|d a]]; [done| |]; simpl;
    rewrite ?orb_false_r, ?andb_true_r, ?andb_false_r; [|done].
  by intros _ ->%Ascii.eqb_eq.
Qed.

Lemma lower_char_blank c : lower_char c = " "%char → c = " "%char.
Proof. each_char c. Qed.

Lemma lower_eq_blank s : lower s = " " → s = " ".
Proof.
  destruct s as [|c [|d s]]; [done| |done].
  unfold lower. simpl. by intros [= ->%lower_char_blank].
Qed.

Lemma alias_or_name_hit_empty m : alias_or_name_hit "" m = false.
Proof.
  unfold alias_or_name_hit, alias_hit, name_hit. apply orb_false_iff. split.
  - induction (m_aliases m) as [|a l IH]; [done|].
    cbn [existsb]. rewrite IH. by destruct a.
  - destruct (m_name m) as [[|c n]|]; done.
Qed.

Lemma alias_or_name_hit_blank m :
  alias_or_name_hit " " m = true → blank_alias m.
Proof.
  unfold alias_or_name_hit, alias_hit, name_hit, blank_alias.
  intros [H|H]%orb_true_iff.
  - left. apply existsb_exists in H as (a & Hin & [Ht Hc]%andb_true_iff).
    apply contains_in_blank in Hc as ->; [|done]. by apply list_elem_of_In.
  - right. destruct (m_name m) as [n|]; [|done].
    apply andb_true_iff in H as [Ht Hc].
    apply contains_in_blank in Hc.
    + by apply lower_eq_blank in Hc as ->.
    + by destruct n.
Qed.

Lemma layers_1_3_empty_text lookup : layers_1_3 "" lookup = ∅.
Proof.
  apply set_eq. intros x. rewrite elem_of_layers_1_3. split; [|set_solver].
  intros [(m & Hm & _)|[[_ H]|(m & _ & H)]].
  - by apply elem_of_nil in Hm.
  - done.
  - by rewrite alias_or_name_hit_empty in H.
Qed.

Lemma layers_1_3_empty_lookup text : layers_1_3 text [] = ∅.
Proof.
  apply set_eq. intros x. rewrite elem_of_layers_1_3. split; [|set_solver].
  intros [(m & _ & _ & H)|[[H _]|(m & H & _)]]; [done|..];
    by apply elem_of_nil in H.
Qed.

Lemma layers_1_3_blank lookup :
  Forall (λ e, ¬ blank_alias e.2) lookup → layers_1_3 " " lookup = ∅.
Proof.
  intros Hall. apply set_eq. intros x. rewrite elem_of_layers_1_3.
  split; [|set_solver].
  intros [(m & Hm & _)|[[_ H]|(m & Hin & H)]].
  - by apply elem_of_nil in Hm.
  - done.
  - rewrite Forall_forall in Hall. destruct (Hall _ Hin).
    by apply alias_or_name_hit_blank.
Qed.

Lemma NoDup_list_filter {A} (f : A → bool) l : NoDup l → NoDup (List.filter f l).
Proof.
  induction 1 as [|x l Hx Hl IH]; simpl; [constructor|].
  destruct (f x); [|done]. constructor; [|done].
  rewrite list_elem_of_In, filter_In, <- list_elem_of_In. tauto.
Qed.







Section DetectorProperties.
Variable gcm : string -> list string -> list string.

Lemma detect_of_found_empty text lookup :
  found_set gcm text lookup = ∅ → detect_tickers_in_text gcm text lookup = [].
Proof.
  intros H. unfold detect_tickers_in_text. rewrite H, elements_empty.
  by destruct (_ || _).
Qed.

Lemma found_set_blank lookup :
  Forall (λ e, ¬ blank_alias e.2) lookup → found_set gcm " " lookup = ∅.
Proof.
  intros H. unfold found_set. rewrite layers_1_3_blank by done.
  by rewrite bool_decide_eq_true_2.
Qed.

(** C8, as the code has it.  [detect_tickers_in_text] returns a list in
    ascending order of [str] that holds no symbol twice; the list is empty
    when the text is empty, when the lookup is empty and when the four
    layers find nothing.  On the text of one space the list is empty for
    every lookup none of whose entries has the space as an alias or as its
    display name (an entry with such an alias is matched by layer 3). *)
Theorem detect_sorted_dedup_or_empty text lookup :
  let r := detect_tickers_in_text gcm text lookup in
  StronglySorted PyStr.le r ∧ NoDup r
  ∧ (text = "" → r = [])
  ∧ (lookup = [] → r = [])
  ∧ (found_set gcm text lookup = ∅ → r = [])
  ∧ (text = " " → Forall (λ e, ¬ blank_alias e.2) lookup → r = []).
Proof.
  cbn zeta. split_and!.
  - unfold detect_tickers_in_text. destruct (_ || _); [constructor|].
    apply sorted_StronglySorted; [apply String.leb_total|apply string_leb_trans].
  - unfold detect_tickers_in_text. destruct (_ || _); [constructor|].
    apply NoDup_sorted, NoDup_list_filter, NoDup_elements.
  - by intros ->.
  - intros ->. unfold detect_tickers_in_text. by rewrite orb_true_r.
  - apply detect_of_found_empty.
  - intros -> H. by apply detect_of_found_empty, found_set_blank.
Qed.

(** C3.  The fuzzy layer is behind [if not found]: as soon as the cashtag,
    exact-token and alias layers have found a symbol for the text, the
    result is the sorted list of what those three layers found, whatever
    [get_close_matches] would return for the tokens of the text.  When the
    three layers find nothing (in a non-empty text, with a non-empty
    lookup), the result is the sorted list of what the fuzzy layer finds. *)
Theorem fuzzy_layer_gated text lookup :
  (layers_1_3 text lookup ≠ ∅ →
   detect_tickers_in_text gcm text lookup
   = sorted String.leb
       (List.filter truthy (elements (layers_1_3 text lookup))))
  ∧ (layers_1_3 text lookup = ∅ → text ≠ "" → lookup ≠ [] →
     detect_tickers_in_text gcm text lookup
     = sorted String.leb
         (List.filter truthy
            (elements (layer_fuzzy gcm (lower text) lookup ∅)))).
Proof.
  split.
  - intros Hne. unfold detect_tickers_in_text.
    rewrite found_set_no_fuzzy by done.
    destruct text as [|c text]; [by rewrite layers_1_3_empty_text in Hne|].
    destruct lookup as [|e lookup]; [by rewrite layers_1_3_empty_lookup in Hne|].
    done.
  - intros He Ht Hl. unfold detect_tickers_in_text, found_set.
    rewrite He.
    destruct text; [by destruct Ht|].
    destruct lookup; [by destruct Hl|].
    simpl. by rewrite (bool_decide_eq_true_2 (∅ = ∅)).
Qed.


(** C5, as the code has it.  For a key [s] of the lookup that begins and
    ends with a word character (a letter, a digit or the underscore), the
    exact-token layer matches the text [s], and the result for the text [s]
    contains [s].  A key such as [^GSPC] has no word boundary in front and
    is not matched by that layer; in a table made by [build_ticker_lookup]
    the result for the text [s] contains [s] all the same, for every key
    [s], because the lowercased ticker is among the aliases of its entry
    (layer 3). *)
Theorem bare_ticker_detected lookup s :
  (dict_mem s lookup = true →
   head_is is_word s = true →
   last_is is_word s = true →
   s ∈ layer_exact (lower s) lookup ∅
   ∧ s ∈ detect_tickers_in_text gcm s lookup)
  ∧ (∀ dir m,
       lookup = build_ticker_lookup dir →
       (s, m) ∈ lookup →
       alias_hit (lower s) m = true
       ∧ s ∈ detect_tickers_in_text gcm s lookup).
Proof.
  split.
  - intros Hkey Hh Hl.
    assert (s ∈ layer_exact (lower s) lookup ∅) as Hexact.
    { apply elem_of_layer_exact. right. split; [by apply dict_mem_elem_of|].
      apply search_word_self.
      - rewrite head_is_lower; [done|apply lower_char_is_word].
      - rewrite last_is_lower; [done|apply lower_char_is_word]. }
    split; [done|]. apply elem_of_detect.
    assert (s ≠ "") by (by destruct s). split_and!; [done| |done|].
    + by eapply dict_mem_nonempty.
    + apply layers_subseteq_found_set, elem_of_layers_1_3. right. left.
      by apply elem_of_layer_exact in Hexact as [?%elem_of_empty|?].
  - intros dir m -> Hin.
    destruct (build_ticker_lookup_entry _ _ _ Hin) as [Hs Hm].
    assert (alias_hit (lower s) m = true) as Hhit
      by (rewrite Hm; apply alias_hit_own_ticker; [done|apply contains_refl]).
    split; [done|]. apply elem_of_detect. split_and!; [done| |done|].
    + intros E. rewrite E in Hin. by apply elem_of_nil in Hin.
    + apply layers_subseteq_found_set, elem_of_layers_1_3. right. right.
      exists m. split; [done|]. unfold alias_or_name_hit. by rewrite Hhit.
Qed.
End DetectorProperties.

Lemma detect_sorted_dedup_or_empty_witness :
  Forall (λ e, ¬ blank_alias e.2) demo_lookup
  ∧ detect_tickers_in_text Difflib.get_close_matches " " demo_lookup = [].
Proof.
  assert (Forall (λ e, ¬ blank_alias e.2) demo_lookup) as H
    by (refine (bool_decide_unpack _ _); vm_compute; exact I).
  split; [exact H|].
  by apply (detect_sorted_dedup_or_empty Difflib.get_close_matches " " demo_lookup).
Defined.

Lemma detect_blank_counterexample :
  build_ticker_lookup [blank_csv] = [(" ", Meta " " None [" "])]
  ∧ detect_tickers_in_text Difflib.get_close_matches " "
      (build_ticker_lookup [blank_csv]) = [" "].
Proof. split; vm_compute; reflexivity. Qed.

Lemma fuzzy_layer_gated_witness :
  layers_1_3 "Apple rallies, microsft too" demo_lookup ≠ ∅
  ∧ Difflib.get_close_matches "microsft" (alias_list demo_lookup) = ["microsoft"]
  ∧ detect_tickers_in_text Difflib.get_close_matches
      "Apple rallies, microsft too" demo_lookup = ["AAPL"].
Proof.
  assert (layers_1_3 "Apple rallies, microsft too" demo_lookup ≠ ∅) as H.
  { intros H%(f_equal elements). vm_compute in H. discriminate. }
  split; [exact H|]. split; [vm_compute; reflexivity|].
  rewrite (proj1 (fuzzy_layer_gated Difflib.get_close_matches _ _) H).
  vm_compute. reflexivity.
Defined.



Lemma bare_ticker_counterexample :
  detect_tickers_in_text Difflib.get_close_matches "^GSPC"
    [("^GSPC", Meta "^GSPC" None [])] = []
  ∧ build_ticker_lookup [gspc_csv] = [("^GSPC", Meta "^GSPC" None ["^gspc"])]
  ∧ elements (layer_exact (lower "^GSPC") (build_ticker_lookup [gspc_csv]) ∅) = [].
Proof. split_and!; vm_compute; reflexivity. Qed.

Lemma bare_ticker_detected_witness :
  ("AAPL" ∈ layer_exact (lower "AAPL") demo_lookup ∅
   ∧ "AAPL" ∈ detect_tickers_in_text Difflib.get_close_matches "AAPL" demo_lookup)
  ∧ "^GSPC" ∈ detect_tickers_in_text Difflib.get_close_matches "^GSPC"
                (build_ticker_lookup [gspc_csv]).
Proof.
  split.
  - apply (proj1 (bare_ticker_detected Difflib.get_close_matches demo_lookup
                    "AAPL")); reflexivity.
  - assert (("^GSPC", Meta "^GSPC" None ["^gspc"])
            ∈ build_ticker_lookup [gspc_csv]) as Hin by (vm_compute; left).
    by destruct (proj2 (bare_ticker_detected Difflib.get_close_matches
                          (build_ticker_lookup [gspc_csv]) "^GSPC")
                   [gspc_csv] _ eq_refl Hin).
Defined.

(** ** The event loop *)

Lemma window_row_eta r :
  {| w_event := w_event r; ar := ar r; car_1_3 := car_1_3 r |} = r.
Proof. by destruct r. Qed.

(** writing [ar_1 .. ar_m], one after the other, into a row of [N] cells *)
Lemma fill_cells (f : nat → option float) (a0 : list (option float)) m :
  (m ≤ length a0)%nat →
  foldl (λ a d, <[(d - 1)%nat := f d]> a) a0 (seq 1 m)
  = (List.map f (seq 1 m) ++ drop m a0)%list.
Proof.
  induction m as [|m IH]; intros Hm; [by rewrite drop_0|].
  rewrite seq_S, foldl_app, IH by lia. simpl.
  rewrite map_app. simpl. replace (m - 0)%nat with m by lia.
  assert (length (List.map f (seq 1 m)) = m) as Hlen
    by by rewrite length_map, length_seq.
  rewrite insert_app_r_alt by lia. rewrite Hlen, Nat.sub_diag.
  destruct (drop m a0) as [|x rest] eqn:E.
  { apply (f_equal length) in E. rewrite length_drop in E. simpl in E. lia. }
  assert (drop (S m) a0 = rest) as ->.
  { replace (S m) with (m + 1)%nat by lia. by rewrite <- drop_drop, E. }
  by rewrite <- app_assoc.
Qed.

Lemma fill_all_cells (f : nat → option float) (a0 : list (option float)) :
  foldl (λ a d, <[(d - 1)%nat := f d]> a) a0 (seq 1 (length a0))
  = List.map f (seq 1 (length a0)).
Proof. by rewrite fill_cells, drop_all, app_nil_r. Qed.

Lemma foldl_set_ar i (f : nat → option float) ds out :
  foldl (λ out d, set_ar i d (f d) out) out ds
  = alter (λ r, {| w_event := w_event r;
                   ar := foldl (λ a d, <[(d - 1)%nat := f d]> a) (ar r) ds;
                   car_1_3 := car_1_3 r |}) i out.
Proof.
  revert out. induction ds as [|d ds IH]; intros out; simpl.
  - symmetry. apply list_alter_id. intros r. apply window_row_eta.
  - rewrite IH. unfold set_ar. rewrite list_alter_alter_eq.
    by apply list_alter_ext.
Qed.

Lemma foldl_set_ar_vals i (f : nat → option float) ds out vals :
  foldl (λ '(out, ar_vals) d,
           let v := f d in (set_ar i d v out, (ar_vals ++ [v])%list))
        (out, vals) ds
  = (foldl (λ out d, set_ar i d (f d) out) out ds,
     (vals ++ List.map f ds)%list).
Proof.
  revert out vals. induction ds as [|d ds IH]; intros out vals; simpl.
  - by rewrite app_nil_r.
  - rewrite IH. by rewrite <- app_assoc.
Qed.

Lemma alter_at_lookup {A} (g : A → A) i (l : list A) x :
  l !! i = Some x → alter g i l = <[i := g x]> l.
Proof.
  revert i. induction l as [|y l IH]; intros [|i] H; simplify_eq/=; [done|].
  f_equal. by apply IH.
Qed.

Lemma car_of_replicate_None n : car_of (replicate n None) = None.
Proof.
  unfold car_of. by induction n as [|n IH]; simpl.
Qed.

Lemma clear_row_spec N i out r :
  out !! i = Some r → length (ar r) = N →
  clear_row N i out
  = <[i := {| w_event := w_event r; ar := replicate N None; car_1_3 := None |}]> out.
Proof.
  intros Hi Hlen. unfold clear_row.
  rewrite (foldl_set_ar i (λ _, None)). unfold set_car.
  rewrite list_alter_alter_eq, (alter_at_lookup _ _ _ _ Hi). simpl.
  do 3 f_equal. rewrite <- Hlen, fill_all_cells, Hlen.
  clear. generalize 1%nat. induction N as [|N IH]; intros k; simpl; [done|].
  by rewrite IH.
Qed.

Lemma process_row_spec groups N i out r :
  out !! i = Some r → length (ar r) = N →
  process_row groups N i (w_event r) out
  = <[i := window_of groups N (w_event r)]> out.
Proof.
  intros Hi Hlen. unfold process_row, window_of, window_returns.
  destruct (usable_ticker (w_event r)) as [t|].
  2:{ rewrite car_of_replicate_None. by apply clear_row_spec. }
  destruct (groups !! t) as [price_ts|].
  2:{ rewrite car_of_replicate_None. by apply clear_row_spec. }
  rewrite (foldl_set_ar_vals i (forward_return price_ts (event_date (w_event r)))).
  rewrite foldl_set_ar. unfold set_car.
  rewrite list_alter_alter_eq, (alter_at_lookup _ _ _ _ Hi). simpl.
  by rewrite <- Hlen, fill_all_cells.
Qed.

Lemma event_loop_spec groups N past rest :
  event_loop groups N (seq (length past) (length rest))
             (past ++ List.map (init_row N) rest)
  = (past ++ List.map (window_of groups N) rest)%list.
Proof.
  revert past. induction rest as [|e rest IH]; intros past; simpl; [done|].
  rewrite list_lookup_middle by done.
  pose proof (process_row_spec groups N (length past)
                (past ++ init_row N e :: List.map (init_row N) rest)
                (init_row N e)) as Hp.
  change (w_event (init_row N e)) with e in *. rewrite Hp;
    [|by apply list_lookup_middle|apply length_replicate].
  rewrite insert_app_r_alt, Nat.sub_diag by lia. simpl.
  specialize (IH (past ++ [window_of groups N e])%list).
  rewrite length_app in IH. simpl in IH.
  rewrite Nat.add_1_r, <- !app_assoc in IH. simpl in IH. exact IH.
Qed.

(** the helper, said without the loop: each event gets its window *)
Lemma compute_event_windows_map events prices N :
  compute_event_windows events prices N
  = List.map (window_of (ticker_groups (prepare_prices prices)) N) events.
Proof.
  unfold compute_event_windows. rewrite length_map.
  apply (event_loop_spec _ N [] events).
Qed.

(** ** The price index *)

(** *** NaN *)

Lemma float_of_SF_nan x : Prim2SF x = S754_nan → x = nan.
Proof. intros H. by rewrite <- (SF2Prim_Prim2SF x), H. Qed.

Lemma div_nan_r x : (x / nan)%float = nan.
Proof.
  apply float_of_SF_nan. rewrite FloatAxioms.div_spec.
  change (Prim2SF nan) with S754_nan.
  unfold SF64div, SFdiv. by destruct (Prim2SF x) as [| | |[] ? ?].
Qed.

Lemma sub_nan_l x : (nan - x)%float = nan.
Proof. apply float_of_SF_nan. by rewrite FloatAxioms.sub_spec. Qed.

Lemma return_over_nan x : (x / nan - 1)%float = nan.
Proof. by rewrite div_nan_r, sub_nan_l. Qed.

(** *** The index by ticker *)

Lemma ticker_groups_snoc rows r :
  ticker_groups (rows ++ [r])
  = <[ticker r := (default [] (ticker_groups rows !! ticker r) ++ [r])%list]>
      (ticker_groups rows).
Proof. unfold ticker_groups. by rewrite foldl_app. Qed.

Lemma ticker_groups_lookup rows t :
  ticker_groups rows !! t
  = match List.filter (λ r, String.eqb (ticker r) t) rows with
    | [] => None
    | l => Some l
    end.
Proof.
  induction rows as [|r rows IH] using rev_ind; [done|].
  rewrite ticker_groups_snoc, List.filter_app. simpl.
  destruct (String.eqb_spec (ticker r) t) as [->|Hne].
  - rewrite lookup_insert_eq, IH.
    by destruct (List.filter _ rows).
  - by rewrite lookup_insert_ne, IH, app_nil_r.
Qed.

Lemma filter_add_daily_return t last rows :
  List.filter (λ r, String.eqb (ticker r) t) (add_daily_return last rows)
  = series_returns (last !! t)
      (List.filter (λ p, String.eqb (pp_ticker p) t) rows).
Proof.
  revert last. induction rows as [|p rows IH]; intros last; simpl; [done|].
  destruct (String.eqb (pp_ticker p) t) eqn:E; simpl.
  - apply String.eqb_eq in E as <-. f_equal. by rewrite IH, lookup_insert_eq.
  - apply String.eqb_neq in E. by rewrite IH, lookup_insert_ne.
Qed.

(** *** Sorting and filtering *)

Lemma Forall_list_filter {A} (P : A → Prop) (p : A → bool) l :
  Forall P l → Forall P (List.filter p l).
Proof.
  induction 1 as [|z l Hz Hl IH]; simpl; [constructor|].
  destruct (p z); [by constructor|done].
Qed.

Section FilterSorted.
Context {A : Type} (leb : A → A → bool) (p : A → bool).
Hypothesis leb_total : ∀ x y, leb x y = true ∨ leb y x = true.
Hypothesis leb_trans : ∀ x y z, leb x y = true → leb y z = true → leb x z = true.

Lemma insert_sorted_below x l :
  Forall (λ z, leb x z = true) l → insert_sorted leb x l = x :: l.
Proof. destruct 1 as [|z l Hz _]; simpl; [done|]. by rewrite Hz. Qed.

Lemma filter_insert_sorted x l :
  StronglySorted (λ a b, leb a b = true) l →
  List.filter p (insert_sorted leb x l)
  = if p x then insert_sorted leb x (List.filter p l) else List.filter p l.
Proof.
  induction 1 as [|y l Hs IH Hy]; simpl.
  - by destruct (p x).
  - destruct (leb x y) eqn:Hxy; simpl.
    + destruct (p x); [|done].
      symmetry. apply insert_sorted_below.
      apply (Forall_list_filter _ p (y :: l)).
      constructor; [done|]. eapply Forall_impl; [exact Hy|].
      intros z Hz. by eapply leb_trans.
    + rewrite IH. destruct (p y), (p x); simpl; by rewrite ?Hxy.
Qed.

Lemma filter_sorted l :
  List.filter p (sorted leb l) = sorted leb (List.filter p l).
Proof.
  induction l as [|x l IH]; [done|].
  change (sorted leb (x :: l)) with (insert_sorted leb x (sorted leb l)).
  rewrite filter_insert_sorted by by apply sorted_StronglySorted.
  simpl. rewrite IH. by destruct (p x).
Qed.
End FilterSorted.

Lemma insert_sorted_ext {A} (leb1 leb2 : A → A → bool) x l :
  Forall (λ y, leb1 x y = leb2 x y) l →
  insert_sorted leb1 x l = insert_sorted leb2 x l.
Proof.
  induction 1 as [|y l Hy Hl IH]; simpl; [done|]. by rewrite Hy, IH.
Qed.

Lemma sorted_ext {A} (leb1 leb2 : A → A → bool) l :
  (∀ x y, x ∈ l → y ∈ l → leb1 x y = leb2 x y) →
  sorted leb1 l = sorted leb2 l.
Proof.
  induction l as [|x l IH]; intros H; [done|].
  change (insert_sorted leb1 x (sorted leb1 l)
          = insert_sorted leb2 x (sorted leb2 l)).
  rewrite <- IH by (intros; apply H; by right).
  apply insert_sorted_ext, Forall_forall. intros y Hy.
  apply H; [left|right]. by apply elem_of_sorted in Hy.
Qed.

(** *** The order of the price table *)

Lemma string_ltb_leb a b :
  String.ltb a b = true ↔ String.leb a b = true ∧ a ≠ b.
Proof.
  unfold String.ltb, String.leb.
  destruct (String.compare a b) eqn:E.
  - apply String.compare_eq_iff in E. naive_solver.
  - split; [|done]. intros _. split; [done|]. intros ->.
    by rewrite string_compare_refl in E.
  - naive_solver.
Qed.

Lemma timestamp_leb_total a b :
  timestamp_leb a b = true ∨ timestamp_leb b a = true.
Proof.
  unfold timestamp_leb.
  destruct (Z.ltb_spec (ts_day a) (ts_day b)), (Z.ltb_spec (ts_day b) (ts_day a)),
    (Z.eqb_spec (ts_day a) (ts_day b)), (Z.eqb_spec (ts_day b) (ts_day a)),
    (Z.leb_spec (ts_time a) (ts_time b)), (Z.leb_spec (ts_time b) (ts_time a));
    simpl; auto; lia.
Qed.

Lemma timestamp_leb_trans a b c :
  timestamp_leb a b = true → timestamp_leb b c = true → timestamp_leb a c = true.
Proof.
  unfold timestamp_leb.
  destruct (Z.ltb_spec (ts_day a) (ts_day b)), (Z.ltb_spec (ts_day b) (ts_day c)),
    (Z.ltb_spec (ts_day a) (ts_day c)),
    (Z.eqb_spec (ts_day a) (ts_day b)), (Z.eqb_spec (ts_day b) (ts_day c)),
    (Z.eqb_spec (ts_day a) (ts_day c)),
    (Z.leb_spec (ts_time a) (ts_time b)), (Z.leb_spec (ts_time b) (ts_time c)),
    (Z.leb_spec (ts_time a) (ts_time c));
    simpl; auto; lia.
Qed.

Lemma price_leb_iff p q :
  price_leb p q = true ↔
    (String.leb (pp_ticker p) (pp_ticker q) = true ∧ pp_ticker p ≠ pp_ticker q)
  ∨ (pp_ticker p = pp_ticker q ∧ timestamp_leb (pp_date p) (pp_date q) = true).
Proof.
  unfold price_leb.
  rewrite orb_true_iff, andb_true_iff, string_ltb_leb, String.eqb_eq. done.
Qed.

Lemma price_leb_total p q : price_leb p q = true ∨ price_leb q p = true.
Proof.
  rewrite !price_leb_iff.
  destruct (decide (pp_ticker p = pp_ticker q)) as [E|E].
  - destruct (timestamp_leb_total (pp_date p) (pp_date q)); auto.
  - destruct (String.leb_total (pp_ticker p) (pp_ticker q)); auto.
Qed.

Lemma price_leb_trans p q r :
  price_leb p q = true → price_leb q r = true → price_leb p r = true.
Proof.
  rewrite !price_leb_iff.
  intros [[H1 N1]|[E1 T1]] [[H2 N2]|[E2 T2]].
  - left. split; [by eapply string_leb_trans|].
    intros E. rewrite <- E in H2. by apply N1, String.leb_antisym.
  - left. by rewrite <- E2.
  - left. by rewrite E1.
  - right. split; [congruence|]. by eapply timestamp_leb_trans.
Qed.

Lemma price_leb_same_ticker p q :
  pp_ticker p = pp_ticker q → price_leb p q = day_leb p q.
Proof.
  intros E. unfold price_leb, day_leb, String.ltb.
  by rewrite E, string_compare_refl, String.eqb_refl.
Qed.

(** the rows of one ticker in the sorted table are its series *)
Lemma filter_sort_prices prices t :
  List.filter (λ p, String.eqb (pp_ticker p) t)
              (sort_prices (List.map normalize_date prices))
  = symbol_series prices t.
Proof.
  unfold sort_prices, symbol_series.
  rewrite (filter_sorted price_leb _ price_leb_total price_leb_trans).
  apply sorted_ext. intros x y Hx Hy. apply price_leb_same_ticker.
  apply list_elem_of_In, filter_In in Hx as [_ Hx%String.eqb_eq].
  apply list_elem_of_In, filter_In in Hy as [_ Hy%String.eqb_eq]. congruence.
Qed.

Lemma groups_of_symbol prices t :
  ticker_groups (prepare_prices prices) !! t
  = match symbol_series prices t with
    | [] => None
    | series => Some (series_returns None series)
    end.
Proof.
  rewrite ticker_groups_lookup. unfold prepare_prices.
  rewrite filter_add_daily_return, filter_sort_prices, lookup_empty.
  by destruct (symbol_series prices t).
Qed.

(** *** The return at a calendar day *)

Lemma position_of_lookup series day i :
  position_of series day = Some i → is_Some (series !! i).
Proof.
  revert i. induction series as [|p series IH]; intros i; simpl; [done|].
  destruct (ts_day (pp_date p) =? day)%Z.
  - intros [= <-]. by eexists.
  - destruct (position_of series day) as [j|]; [|done].
    intros [= <-]. by apply IH.
Qed.

Lemma find_series_returns prev series day :
  daily_return <$> List.find (λ r, (date r =? day)%Z) (series_returns prev series)
  = match position_of series day with
    | Some O => (λ p, (pp_close p / default nan prev - 1)%float) <$> series !! 0%nat
    | Some i => return_of_observation series i
    | None => None
    end.
Proof.
  revert prev. induction series as [|p series IH]; intros prev; simpl; [done|].
  destruct (ts_day (pp_date p) =? day)%Z; [done|].
  rewrite IH. destruct (position_of series day) as [[|k]|] eqn:E; simpl; [|done..].
  by destruct series.
Qed.

Lemma forward_return_observed series e d :
  forward_return (series_returns None series) (Some e) d
  = observed_return series (e + Z.of_nat d).
Proof.
  unfold forward_return, observed_return. rewrite find_series_returns.
  destruct (position_of series _) as [[|k]|] eqn:E; [|done..].
  apply position_of_lookup in E as [p ->]. simpl. by rewrite return_over_nan.
Qed.

Lemma observed_return_nil day : observed_return [] day = None.
Proof. done. Qed.

(** where [observed_return] and [claimed_return] part: the first observation *)
Lemma observed_or_claimed series day :
  observed_return series day
  = match position_of series day with
    | Some O => Some nan
    | _ => claimed_return series day
    end.
Proof.
  unfold observed_return, claimed_return.
  by destruct (position_of series day) as [[|k]|].
Qed.

(** ** The event windows *)

Lemma car_of_claimed ars : car_of ars = claimed_cumulative ars.
Proof.
  unfold car_of, claimed_cumulative.
  assert (omap id ars = [] ↔ forallb is_None_b ars = true) as H.
  { induction ars as [|[x|] ars IH]; simpl; [done|done|exact IH]. }
  destruct (forallb is_None_b ars).
  - by rewrite (proj2 H eq_refl).
  - destruct (omap id ars); [|done]. by pose proof (proj1 H eq_refl).
Qed.

Lemma length_window_returns groups N e :
  length (window_returns groups N e) = N.
Proof.
  unfold window_returns.
  destruct (usable_ticker e); [destruct (groups !! _)|];
    by rewrite ?length_map, ?length_seq, ?length_replicate.
Qed.

(** the usable ticker of an event whose [detected_ticker] is a string *)
Lemma usable_ticker_of_string e s :
  detected_ticker e = CStr s → s ≠ "" → usable_ticker e = Some (upper s).
Proof.
  unfold usable_ticker, pick_ticker. intros -> Hs. by destruct s.
Qed.

(** no ticker, an empty one or a missing value, and no list to fall back on *)
Lemma usable_ticker_absent e :
  detected_ticker e ∈ [CNone; CNaN; CStr ""] →
  detected_tickers e ∈ [CNone; CNaN; CStr ""; CList []] →
  usable_ticker e = None.
Proof.
  unfold usable_ticker, pick_ticker. intros H1 H2.
  repeat (apply elem_of_cons in H1 as [->|H1]);
    repeat (apply elem_of_cons in H2 as [->|H2]);
    try done; by apply elem_of_nil in H1 || by apply elem_of_nil in H2.
Qed.

Lemma lookup_map_seq {A} (f : nat → A) N d :
  (1 ≤ d ≤ N)%nat → List.map f (seq 1 N) !! (d - 1)%nat = Some (f d).
Proof.
  intros Hd. change (List.map f (seq 1 N)) with (f <$> seq 1 N).
  rewrite list_lookup_fmap, lookup_seq_lt by lia. simpl. f_equal. f_equal. lia.
Qed.

(** C6.  [compute_event_windows] returns as many rows as it was given
    events, and the event columns of the rows are the given events in the
    given order, whatever the price table holds. *)
Theorem one_row_per_event events prices N :
  length (compute_event_windows events prices N) = length events
  ∧ List.map w_event (compute_event_windows events prices N) = events.
Proof.
  rewrite compute_event_windows_map. split; [by rewrite length_map|].
  rewrite map_map. simpl. apply map_id.
Qed.

(** C2.  In every row of the result [car_1_3] is the sum of the values of
    [ar_1 .. ar_N] that are not None, and None when all of them are None.
    On a price index whose returns at the first two days after the event
    are 0.01 and -0.02, with no record at the third day, the row gets
    [ar_1 = 0.01], [ar_2 = -0.02], [ar_3 = None] and [car_1_3 = -0.01]. *)
Theorem cumulative_return_of_window events prices N :
  (∀ w, w ∈ compute_event_windows events prices N →
        length (ar w) = N ∧ car_1_3 w = claimed_cumulative (ar w))
  ∧ (let e := event_on "AAPL" 10 in
     let price_ts :=
       [PriceRow "AAPL" 11 101 0.01; PriceRow "AAPL" 12 98.98 (-0.02)] in
     process_row {[ "AAPL" := price_ts ]} 3 0 e [init_row 3 e]
     = [WindowRow e [Some 0.01; Some (-0.02); None] (Some (-0.01))])%float.
Proof.
  split; [|vm_compute; reflexivity].
  intros w. rewrite compute_event_windows_map.
  change (List.map ?f events) with (f <$> events).
  intros (e & -> & _)%list_elem_of_fmap. simpl.
  split; [apply length_window_returns|apply car_of_claimed].
Qed.

(** C1, as the code has it.  Take the [i]-th event [e] and an offset [d]
    in [1 .. N].  If [e] has a usable ticker (uppercased by the helper) and
    a date, [ar_d] is read off the series of that ticker at the calendar
    day [event_date + d]: None if the series has no record at that day (in
    particular if it is empty), [close[k] / close[k-1] - 1] if the record
    is the [k]-th of the series with [k > 0], and NaN, not None, if the
    record is the first observation.  Without a usable ticker or without a
    date, [ar_d] is None. *)
Theorem forward_return_at_offset events prices N i e d :
  events !! i = Some e →
  (1 ≤ d ≤ N)%nat →
  ∃ w, compute_event_windows events prices N !! i = Some w
       ∧ w_event w = e
       ∧ ar w !! (d - 1)%nat
         = Some
             match usable_ticker e, event_date e with
             | Some s, Some day =>
                 let series := symbol_series prices s in
                 match position_of series (day + Z.of_nat d) with
                 | Some O => Some nan
                 | _ => claimed_return series (day + Z.of_nat d)
                 end
             | _, _ => None
             end.
Proof.
  intros He Hd. rewrite compute_event_windows_map.
  exists (window_of (ticker_groups (prepare_prices prices)) N e).
  split; [|split; [done|]].
  { change (List.map ?f events) with (f <$> events).
    by rewrite list_lookup_fmap, He. }
  simpl. unfold window_returns.
  assert (replicate N (@None float) !! (d - 1)%nat = Some None) as Hrep
    by (apply lookup_replicate_2; lia).
  destruct (usable_ticker e) as [s|]; [|by destruct (event_date e)].
  rewrite groups_of_symbol.
  destruct (symbol_series prices s) as [|p series] eqn:Es.
  { rewrite Hrep. by destruct (event_date e). }
  rewrite lookup_map_seq by done.
  destruct (event_date e) as [day|]; [|done].
  by rewrite forward_return_observed, observed_or_claimed.
Qed.

Example demo_windows :
  compute_event_windows demo_events demo_prices 3
  = [WindowRow (event_on "aapl" 10)
       [Some 0.010000000000000009; Some (-0.019999999999999907); None]
       (Some (-0.0099999999999998979));
     WindowRow (event_on "MSFT" 8) [Some nan; None; Some 0.25] (Some nan);
     WindowRow (event_on "IBM" 10) [None; None; None] None;
     WindowRow (Event CNone (CList ["AAPL"; "MSFT"]) (Some 11%Z) "both")
       [Some (-0.019999999999999907); None; None] (Some (-0.019999999999999907));
     WindowRow (Event CNaN CNone (Some 10%Z) "nan") [None; None; None] None;
     WindowRow (Event (CStr "AAPL") CNone None "undated") [None; None; None] None]%float.
Proof. vm_compute. reflexivity. Qed.

Lemma forward_return_at_offset_witness :
  ∃ w, compute_event_windows demo_events demo_prices 3 !! 0%nat = Some w
       ∧ w_event w = event_on "aapl" 10
       ∧ ar w !! 0%nat = Some (Some 0.010000000000000009%float).
Proof.
  destruct (forward_return_at_offset demo_events demo_prices 3 0
              (event_on "aapl" 10) 1 eq_refl)
    as (w & Hw & He & Har); [lia|].
  exists w. split; [exact Hw|]. split; [exact He|].
  change (1 - 1)%nat with 0%nat in Har. rewrite Har. vm_compute. reflexivity.
Defined.

Lemma first_observation_counterexample :
  let prices := [price_on "AAPL" 11 100; price_on "AAPL" 12 101]%float in
  let lower_prices := [price_on "aapl" 10 100; price_on "aapl" 11 101]%float in
  (claimed_return (symbol_series prices "AAPL") 11 = None
   ∧ compute_event_windows [event_on "AAPL" 10] prices 3
     = [WindowRow (event_on "AAPL" 10)
          [Some nan; Some 0.010000000000000009%float; None] (Some nan)])
  ∧ (claimed_return (symbol_series lower_prices "aapl") 11
     = Some 0.010000000000000009%float
     ∧ compute_event_windows [event_on "aapl" 10] lower_prices 3
       = [WindowRow (event_on "aapl" 10) [None; None; None] None]).
Proof. cbn zeta. split_and!; vm_compute; reflexivity. Qed.

Lemma cumulative_return_of_window_witness :
  let w := (WindowRow (event_on "aapl" 10)
              [Some 0.010000000000000009; Some (-0.019999999999999907); None]
              (Some (-0.0099999999999998979)))%float in
  w ∈ compute_event_windows demo_events demo_prices 3
  ∧ car_1_3 w = claimed_cumulative (ar w).
Proof.
  cbn zeta.
  assert ((WindowRow (event_on "aapl" 10)
             [Some 0.010000000000000009; Some (-0.019999999999999907); None]
             (Some (-0.0099999999999998979)))%float
          ∈ compute_event_windows demo_events demo_prices 3) as Hin
    by (rewrite demo_windows; left).
  split; [exact Hin|].
  by destruct (cumulative_return_of_window demo_events demo_prices 3)
    as [H _]; destruct (H _ Hin).
Defined.

(** had line 28 written to the table it was given, the caller's dates would
    have lost their time of day *)
Example normalize_date_changes_rows :
  List.map normalize_date demo_prices
  = [PricePoint "MSFT" (Timestamp 11 0) 10; PricePoint "AAPL" (Timestamp 12 0) 98.98;
     PricePoint "AAPL" (Timestamp 10 0) 100; PricePoint "AAPL" (Timestamp 11 0) 101;
     PricePoint "MSFT" (Timestamp 9 0) 8]%float.
Proof. reflexivity. Qed.

(** ** The store *)

Lemma post_ret {A} (a : A) h (Q : A → heap → Prop) : Q a h → post (ret a) h Q.
Proof. intros. by exists a, h. Qed.

Lemma post_bind {A B} (m : M A) (k : A → M B) h (Q : B → heap → Prop) :
  post m h (λ a h', post (k a) h' Q) → post (bind m k) h Q.
Proof.
  intros (a & h' & Hm & b & h'' & Hk & HQ). exists b, h''.
  unfold bind. by rewrite Hm.
Qed.

Lemma post_alloc f h (Q : loc → heap → Prop) :
  (∀ l, h !! l = None → Q l (<[l := f]> h)) → post (alloc f) h Q.
Proof.
  intros HQ. eexists _, _. split; [done|]. apply HQ.
  apply not_elem_of_dom, is_fresh.
Qed.

Lemma post_read l f h (Q : frame → heap → Prop) :
  h !! l = Some f → Q f h → post (read l) h Q.
Proof. intros Hl HQ. exists f, h. unfold read. by rewrite Hl. Qed.

Lemma post_write l f g h (Q : unit → heap → Prop) :
  h !! l = Some g → Q tt (<[l := f]> h) → post (write l f) h Q.
Proof. intros Hl HQ. exists tt, (<[l := f]> h). unfold write. by rewrite Hl. Qed.

Lemma post_copy l f h (Q : loc → heap → Prop) :
  h !! l = Some f →
  (∀ l', h !! l' = None → Q l' (<[l' := f]> h)) → post (copy l) h Q.
Proof.
  intros Hl HQ. apply post_bind. eapply post_read; [done|]. by apply post_alloc.
Qed.

Lemma post_read_prices l rows h (Q : list price_point → heap → Prop) :
  h !! l = Some (PriceFrame rows) → Q rows h → post (read_prices l) h Q.
Proof.
  intros Hl HQ. apply post_bind. eapply post_read; [done|]. by apply post_ret.
Qed.

Lemma post_read_returns l rows h (Q : list price_row → heap → Prop) :
  h !! l = Some (ReturnFrame rows) → Q rows h → post (read_returns l) h Q.
Proof.
  intros Hl HQ. apply post_bind. eapply post_read; [done|]. by apply post_ret.
Qed.

Lemma post_read_events l rows h (Q : list event → heap → Prop) :
  h !! l = Some (EventFrame rows) → Q rows h → post (read_events l) h Q.
Proof.
  intros Hl HQ. apply post_bind. eapply post_read; [done|]. by apply post_ret.
Qed.

Lemma post_read_windows l rows h (Q : list window_row → heap → Prop) :
  h !! l = Some (WindowFrame rows) → Q rows h → post (read_windows l) h Q.
Proof.
  intros Hl HQ. apply post_bind. eapply post_read; [done|]. by apply post_ret.
Qed.

(** the loop writes to [out] and to nothing else *)
Lemma post_event_loop groups N todo out rows h (Q : unit → heap → Prop) :
  h !! out = Some (WindowFrame rows) →
  Q tt (<[out := WindowFrame (event_loop groups N todo rows)]> h) →
  post (event_loop_st groups N todo out) h Q.
Proof.
  revert rows h. induction todo as [|i todo IH]; intros rows h Hout HQ;
    simpl in *.
  - apply post_ret. by rewrite insert_id in HQ.
  - apply post_bind. eapply post_read_windows; [done|].
    destruct (rows !! i) as [row|].
    + apply post_bind. eapply post_write; [done|].
      eapply IH; [by rewrite lookup_insert_eq|]. by rewrite insert_insert_eq.
    + apply post_ret. by rewrite insert_id in HQ.
Qed.

(** C10.  Run on a store in which [events_ref] holds the events table and
    [prices_ref] the price table, the helper ends without raising; the two
    frames, and every frame the store held before, are what they were; the
    result is a frame the store did not hold before, and its rows are those
    of [compute_event_windows] on the values of the two tables. *)
Theorem inputs_left_unchanged h events_ref prices_ref events prices N :
  h !! events_ref = Some (EventFrame events) →
  h !! prices_ref = Some (PriceFrame prices) →
  ∃ out h',
    compute_event_windows_st events_ref prices_ref N h = Some (out, h')
    ∧ h' !! events_ref = Some (EventFrame events)
    ∧ h' !! prices_ref = Some (PriceFrame prices)
    ∧ h !! out = None
    ∧ h' !! out = Some (WindowFrame (compute_event_windows events prices N))
    ∧ ∀ l, is_Some (h !! l) → h' !! l = h !! l.
Proof.
  intros Hev Hpr.
  cut (post (compute_event_windows_st events_ref prices_ref N) h
         (λ out h',
            h !! out = None
            ∧ h' !! out = Some (WindowFrame (compute_event_windows events prices N))
            ∧ ∀ l, is_Some (h !! l) → h' !! l = h !! l)).
  { intros (out & h' & Hrun & Hfresh & Hout & Hsame).
    exists out, h'. split_and!; try done.
    - by rewrite Hsame, Hev.
    - by rewrite Hsame, Hpr. }
  unfold compute_event_windows_st.
  apply post_bind. eapply post_copy; [done|]. intros l1 H1.
  apply post_bind. eapply post_read_prices; [by rewrite lookup_insert_eq|].
  apply post_bind. eapply post_write; [by rewrite lookup_insert_eq|].
  rewrite insert_insert_eq.
  apply post_bind. eapply post_read_prices; [by rewrite lookup_insert_eq|].
  apply post_bind. apply post_alloc. intros l2 H2.
  apply lookup_insert_None in H2 as [H2 N21].
  apply post_bind. eapply post_copy; [by rewrite lookup_insert_eq|]. intros l3 H3.
  apply lookup_insert_None in H3 as [H3 N32].
  apply lookup_insert_None in H3 as [H3 N31].
  apply post_bind. eapply post_read_prices; [by rewrite lookup_insert_eq|].
  apply post_bind. eapply post_write; [by rewrite lookup_insert_eq|].
  rewrite insert_insert_eq.
  apply post_bind. eapply post_copy; [by rewrite lookup_insert_eq|]. intros l4 H4.
  apply lookup_insert_None in H4 as [H4 N43].
  apply lookup_insert_None in H4 as [H4 N42].
  apply lookup_insert_None in H4 as [H4 N41].
  apply post_bind. eapply post_read_returns; [by rewrite lookup_insert_eq|].
  assert (events_ref ≠ l1 ∧ events_ref ≠ l2 ∧ events_ref ≠ l3 ∧ events_ref ≠ l4)
    as (E1 & E2 & E3 & E4) by (split_and!; congruence).
  apply post_bind. eapply post_copy.
  { by rewrite !lookup_insert_ne. }
  intros l5 H5.
  apply lookup_insert_None in H5 as [H5 N54].
  apply lookup_insert_None in H5 as [H5 N53].
  apply lookup_insert_None in H5 as [H5 N52].
  apply lookup_insert_None in H5 as [H5 N51].
  apply post_bind. eapply post_copy; [by rewrite lookup_insert_eq|]. intros l6 H6.
  apply lookup_insert_None in H6 as [H6 N65].
  apply lookup_insert_None in H6 as [H6 N64].
  apply lookup_insert_None in H6 as [H6 N63].
  apply lookup_insert_None in H6 as [H6 N62].
  apply lookup_insert_None in H6 as [H6 N61].
  apply post_bind. eapply post_read_events; [by rewrite lookup_insert_eq|].
  apply post_bind. eapply post_write; [by rewrite lookup_insert_eq|].
  rewrite insert_insert_eq.
  apply post_bind. eapply post_event_loop; [by rewrite lookup_insert_eq|].
  rewrite insert_insert_eq.
  apply post_ret. split_and!.
  - done.
  - rewrite lookup_insert_eq. do 2 f_equal.
    unfold compute_event_windows, prepare_prices. by rewrite length_map.
  - intros l [f Hl].
    rewrite !lookup_insert_ne; [done|congruence..].
Qed.

Lemma inputs_left_unchanged_witness :
  ∃ out h',
    compute_event_windows_st 0 1 3 demo_heap = Some (out, h')
    ∧ h' !! 0%nat = Some (EventFrame demo_events)
    ∧ h' !! 1%nat = Some (PriceFrame demo_prices)
    ∧ h' !! out = Some (WindowFrame (compute_event_windows demo_events demo_prices 3)).
Proof.
  destruct (inputs_left_unchanged demo_heap 0 1 demo_events demo_prices 3)
    as (out & h' & Hrun & Hev & Hpr & _ & Hout & _); [done..|].
  by exists out, h'.
Defined.

(** a write through a reference is seen by whoever holds the reference: the
    same assignment to [price_df["date"]] without the copy of line 27 *)
Example write_without_copy :
  (rows <- read_prices 1 ;;
   write 1 (PriceFrame (List.map normalize_date rows)) ;;;
   read 1) demo_heap
  = Some (PriceFrame (List.map normalize_date demo_prices),
          <[1%nat := PriceFrame (List.map normalize_date demo_prices)]> demo_heap).
Proof. reflexivity. Qed.


(** ** The price panel loader *)

Section LoaderFacts.
Variable data_dir : string.
Variable repr_list : list string → string.
Variable to_datetime : option string → option Z.

Lemma missing_columns_message_names_file f :
  contains (csv_name f) (missing_columns_message repr_list f) = true.
Proof. unfold missing_columns_message. apply (contains_middle _ "CSV '"). Qed.

Lemma missing_columns_message_lists_columns f :
  contains (repr_list (normalized_columns f))
           (missing_columns_message repr_list f) = true.
Proof.
  unfold missing_columns_message.
  do 4 apply contains_app_r.
  apply (contains_middle _ "Found columns: ").
Qed.

(** the loop stops at the first file that lacks a required column *)
Lemma load_frames_raises csv_files :
  Exists (λ f, has_required f = false) csv_files →
  ∃ f, f ∈ csv_files ∧ has_required f = false
       ∧ load_frames repr_list to_datetime csv_files
         = inl (ValueError (missing_columns_message repr_list f)).
Proof.
  induction csv_files as [|g rest IH]; intros Hex; [by inversion Hex|].
  simpl. destruct (has_required g) eqn:Hg.
  - apply Exists_cons in Hex as [Hex|Hex]; [congruence|].
    destruct (IH Hex) as (f & Hin & Hf & ->).
    exists f. split_and!; [by right|done..].
  - exists g. split_and!; [left|done..].
Qed.

(** C9.  [load_price_panel] raises [FileNotFoundError] when the data
    directory is missing and when it holds no file named [*.csv].  When
    some CSV file lacks one of the required columns (compared after
    lowercasing and stripping), it raises a [ValueError] for the first such
    file in sorted order, whose message holds the name of that file and the
    list of the columns found in it. *)
Theorem load_price_panel_fails_fast :
  let load := load_price_panel data_dir repr_list to_datetime in
  (∃ msg, load None = inl (FileNotFoundError msg))
  ∧ (∀ dir, Forall (λ f, Path.is_csv (csv_name f) = false) dir →
            ∃ msg, load (Some dir) = inl (FileNotFoundError msg))
  ∧ (∀ dir,
       Exists (λ f, Path.is_csv (csv_name f) = true ∧ has_required f = false) dir →
       ∃ f, f ∈ dir ∧ Path.is_csv (csv_name f) = true ∧ has_required f = false
            ∧ load (Some dir)
              = inl (ValueError (missing_columns_message repr_list f))
            ∧ contains (csv_name f) (missing_columns_message repr_list f) = true
            ∧ contains (repr_list (normalized_columns f))
                       (missing_columns_message repr_list f) = true).
Proof.
  cbn zeta. split_and!.
  - by eexists.
  - intros dir Hall. eexists. unfold load_price_panel.
    by rewrite sorted_glob_csv_none.
  - intros dir Hex.
    assert (Exists (λ f, has_required f = false) (Path.sorted_glob_csv dir)) as Hex'.
    { apply Exists_exists in Hex as (f & Hin & Hcsv & Hreq).
      apply Exists_exists. exists f. split; [|done].
      by apply elem_of_sorted_glob_csv. }
    destruct (load_frames_raises _ Hex') as (f & Hin & Hreq & Hload).
    apply elem_of_sorted_glob_csv in Hin as [Hin Hcsv].
    exists f. split_and!; try done.
    + unfold load_price_panel.
      destruct (Path.sorted_glob_csv dir); [by inversion Hex'|by rewrite Hload].
    + apply missing_columns_message_names_file.
    + apply missing_columns_message_lists_columns.
Qed.
End LoaderFacts.

Lemma load_price_panel_fails_fast_witness :
  let load := load_price_panel "data/prices" repr_plain_list (λ _, None) in
  let dir := [no_volume_csv; good_csv] in
  Exists (λ f, Path.is_csv (csv_name f) = true ∧ has_required f = false) dir
  ∧ Forall (λ f, Path.is_csv (csv_name f) = false) [CsvFile "readme.md" [] []]
  ∧ (∃ msg, load (Some [CsvFile "readme.md" [] []]) = inl (FileNotFoundError msg))
  ∧ load (Some dir)
    = inl (ValueError
             ("CSV 'TSLA.csv' is missing required columns." +:+ String "010" "" +:+
              "Found columns: ['date', 'open', 'high', 'low', 'close']" +:+
              String "010" "" +:+
              "Required (case-insensitive): ['date', 'open', 'high', 'low', 'close', 'volume']")).
Proof.
  cbn zeta.
  assert (Exists (λ f, Path.is_csv (csv_name f) = true ∧ has_required f = false)
                 [no_volume_csv; good_csv]) as Hex by (left; by vm_compute).
  assert (Forall (λ f, Path.is_csv (csv_name f) = false) [CsvFile "readme.md" [] []])
    as Hall by (by repeat constructor).
  destruct (load_price_panel_fails_fast "data/prices" repr_plain_list (λ _, None))
    as (_ & Hnone & Hmiss).
  split; [exact Hex|]. split; [exact Hall|]. split; [exact (Hnone _ Hall)|].
  destruct (Hmiss _ Hex) as (f & _ & _ & _ & _ & _ & _).
  vm_compute. reflexivity.
Defined.

(** a directory that loads: one table, keyed by the uppercased stem *)
Example load_price_panel_loads :
  load_price_panel "data/prices" repr_plain_list
    (fun c => match c with Some "2024-01-02" => Some 19724%Z | _ => None end)
    (Some [CsvFile "notes.txt" [] []; good_csv])
  = inr [PanelRow (Some 19724%Z) (Some "187.2") (Some "188.4") (Some "183.9")
           (Some "185.6") (Some "82488700") (Some "185.6") "AAPL"].
Proof. vm_compute. reflexivity. Qed.

(** ** The detector and the keys of the table *)

Lemma alias_map_key lookup a t :
  alias_map lookup !! a = Some t → t ∈ dict_keys lookup.
Proof.
  unfold alias_map, dict_keys.
  assert (∀ (am : gmap string string) (pre : lookup_table),
    (∀ a t, am !! a = Some t → t ∈ (List.map fst pre)) →
    ∀ a t, foldl (λ am '(t, m), foldl (λ am a, <[a := t]> am) am (m_aliases m))
                 am lookup !! a = Some t →
           t ∈ (List.map fst (pre ++ lookup)%list)) as Hgen.
  { induction lookup as [|[k m] lookup IH]; intros am pre Ham a' t'; simpl.
    - rewrite app_nil_r. apply Ham.
    - replace (pre ++ (k, m) :: lookup)%list with ((pre ++ [(k, m)]) ++ lookup)%list
        by by rewrite <- app_assoc.
      apply IH. clear IH a' t'.
      assert (∀ (am : gmap string string) (l : list string),
        (∀ a t, am !! a = Some t → t ∈ (List.map fst (pre ++ [(k, m)])%list)) →
        ∀ a t, foldl (λ am a, <[a := k]> am) am l !! a = Some t →
               t ∈ (List.map fst (pre ++ [(k, m)])%list)) as Hin.
      { intros am' l. revert am'. induction l as [|b l IHl]; intros am' Ham' a' t'; simpl;
          [apply Ham'|].
        apply IHl. intros a'' t''.
        destruct (decide (b = a'')) as [->|Hne].
        - rewrite lookup_insert_eq. intros [= <-].
          rewrite List.map_app. apply elem_of_app. right. simpl. left.
        - rewrite lookup_insert_ne by done. apply Ham'. }
      apply Hin. intros a' t' H%Ham.
      rewrite List.map_app. apply elem_of_app. by left. }
  intros H. apply (Hgen ∅ [] (λ a t H, False_rect _ (lookup_empty_Some a t H)) a t H).
Qed.

Section DetectKeys.
Variable gcm : string -> list string -> list string.

Lemma elem_of_layer_fuzzy text_lower lookup found x :
  x ∈ layer_fuzzy gcm text_lower lookup found →
  x ∈ found ∨ x ∈ dict_keys lookup.
Proof.
  unfold layer_fuzzy. generalize (findall_alnum3 text_lower) as toks.
  intros toks. revert found.
  induction toks as [|tok toks IH]; intros found; simpl; [by left|].
  intros [Hx|Hx]%IH; [|by right].
  revert Hx. generalize (gcm tok (alias_list lookup)) as ms. intros ms.
  revert found. induction ms as [|m ms IHm]; intros found; simpl; [by left|].
  intros [Hx|Hx]%IHm; [|by right].
  destruct (alias_map lookup !! m) as [t|] eqn:E; [|by left].
  apply elem_of_union in Hx. destruct Hx as [?|Hx]; [by left|right].
  apply elem_of_singleton in Hx as ->.
  by apply alias_map_key in E.
Qed.

Lemma layers_1_3_keys text lookup x :
  x ∈ layers_1_3 text lookup → x ∈ dict_keys lookup.
Proof.
  rewrite elem_of_layers_1_3.
  intros [(m & _ & _ & H)|[[H _]|(m & H & _)]].
  - by apply dict_mem_elem_of.
  - done.
  - unfold dict_keys. apply list_elem_of_fmap. by exists (x, m).
Qed.

Lemma found_set_keys text lookup x :
  x ∈ found_set gcm text lookup → x ∈ dict_keys lookup.
Proof.
  unfold found_set. case_bool_decide.
  - intros [?|?]%elem_of_layer_fuzzy; [by eapply layers_1_3_keys|done].
  - apply layers_1_3_keys.
Qed.

(** X1.  Whatever the fuzzy matcher returns, every symbol the detector
    reports is a key of the lookup table and is not the empty string. *)
Theorem detect_within_lookup text lookup :
  Forall (λ x, x ∈ dict_keys lookup ∧ x ≠ "")
         (detect_tickers_in_text gcm text lookup).
Proof.
  apply Forall_forall. intros x (_ & _ & Hx & Hin)%elem_of_detect.
  split; [by eapply found_set_keys|done].
Qed.

End DetectKeys.

(** ** The case of the text *)

Lemma lower_char_dollar c : Ascii.eqb (lower_char c) "$" = Ascii.eqb c "$".
Proof. each_char c. Qed.

Lemma is_letter_lower_char c : is_letter (lower_char c) = is_letter c.
Proof. each_char c. Qed.

Lemma upper_lower_char c : upper_char (lower_char c) = upper_char c.
Proof. each_char c. Qed.

Lemma lower_lower_char c : lower_char (lower_char c) = lower_char c.
Proof. each_char c. Qed.

Lemma upper_lower s : upper (lower s) = upper s.
Proof.
  unfold upper, lower. induction s as [|c s IH]; simpl; [done|].
  by rewrite IH, upper_lower_char.
Qed.

Lemma lower_lower s : lower (lower s) = lower s.
Proof.
  unfold lower. induction s as [|c s IH]; simpl; [done|].
  by rewrite IH, lower_lower_char.
Qed.

Lemma length_lower s : String.length (lower s) = String.length s.
Proof. unfold lower. induction s; simpl; congruence. Qed.

Lemma take_letters_lower n s :
  take_letters n (lower s) = lower (take_letters n s).
Proof.
  revert s. induction n as [|n IH]; intros [|c s]; simpl; try done.
  rewrite is_letter_lower_char. destruct (is_letter c); [|done].
  change (lower (String c ?t)) with (String (lower_char c) (lower t)).
  by rewrite <- IH.
Qed.

Lemma findall_cashtag_from_lower skip s :
  findall_cashtag_from skip (lower s) = List.map lower (findall_cashtag_from skip s).
Proof.
  revert skip. induction s as [|c s IH]; intros skip; [done|].
  change (lower (String c s)) with (String (lower_char c) (lower s)).
  cbn [findall_cashtag_from].
  destruct skip as [|k]; [|apply IH].
  rewrite lower_char_dollar. destruct (Ascii.eqb c "$"); [|apply IH].
  rewrite take_letters_lower.
  destruct (take_letters 6 s) as [|a m] eqn:E; [apply IH|].
  change (lower (String a m)) with (String (lower_char a) (lower m)).
  cbn [List.map]. f_equal. rewrite <- IH. f_equal. simpl.
  by rewrite length_lower.
Qed.

Lemma layer_cashtag_lower text lookup found :
  layer_cashtag (lower text) lookup found = layer_cashtag text lookup found.
Proof.
  unfold layer_cashtag, findall_cashtag. rewrite findall_cashtag_from_lower.
  generalize (findall_cashtag_from 0 text) as ms. intros ms. revert found.
  induction ms as [|m ms IH]; intros found; simpl; [done|].
  by rewrite upper_lower, IH.
Qed.

Section DetectCase.
Variable gcm : string -> list string -> list string.

Lemma found_set_lower text lookup :
  found_set gcm (lower text) lookup = found_set gcm text lookup.
Proof.
  unfold found_set, layers_1_3. by rewrite lower_lower, layer_cashtag_lower.
Qed.

Lemma detect_lower text lookup :
  detect_tickers_in_text gcm (lower text) lookup
  = detect_tickers_in_text gcm text lookup.
Proof.
  unfold detect_tickers_in_text. rewrite found_set_lower.
  by destruct text.
Qed.

(** X2.  The detector does not look at the case of the text: two texts
    that are equal once lowercased get the same list of symbols. *)
Theorem detect_case_insensitive text1 text2 lookup :
  lower text1 = lower text2 →
  detect_tickers_in_text gcm text1 lookup
  = detect_tickers_in_text gcm text2 lookup.
Proof.
  intros H. by rewrite <- (detect_lower text1), <- (detect_lower text2), H.
Qed.

End DetectCase.

Lemma detect_case_insensitive_witness :
  detect_tickers_in_text Difflib.get_close_matches
    "APPLE and $msft rally" demo_lookup = ["AAPL"; "MSFT"]
  ∧ detect_tickers_in_text Difflib.get_close_matches
      "apple And $MSFT Rally" demo_lookup = ["AAPL"; "MSFT"].
Proof.
  assert (detect_tickers_in_text Difflib.get_close_matches
            "APPLE and $msft rally" demo_lookup = ["AAPL"; "MSFT"]) as H
    by (vm_compute; reflexivity).
  split; [exact H|].
  rewrite <- H. symmetry.
  apply (detect_case_insensitive Difflib.get_close_matches). reflexivity.
Defined.

(** ** Aliases as substrings *)

Section AliasFacts.
Variable gcm : string → list string → list string.

(** X3.  Layer 3 looks for an alias anywhere in the lowercased text, not
    as a word: a text that holds a non-empty alias of an entry as a
    substring is given the ticker of the entry. *)
Theorem alias_substring_detected lookup text t m a :
  (t, m) ∈ lookup → t ≠ "" →
  a ∈ m_aliases m → a ≠ "" → contains a (lower text) = true →
  t ∈ detect_tickers_in_text gcm text lookup.
Proof.
  intros Hin Ht Ha Hne Hc. apply elem_of_detect. split_and!; try done.
  - intros ->. rewrite contains_in_empty in Hc; [done|by apply truthy_iff].
  - intros ->. by apply elem_of_nil in Hin.
  - apply layers_subseteq_found_set, elem_of_layers_1_3. right; right.
    exists m. split; [done|]. unfold alias_or_name_hit, alias_hit.
    apply orb_true_iff. left. apply existsb_exists. exists a.
    split; [by apply list_elem_of_In|].
    by rewrite Hc, andb_true_r, truthy_iff.
Qed.

End AliasFacts.

Lemma alias_substring_detected_witness :
  "AAPL" ∈ detect_tickers_in_text Difflib.get_close_matches
             "Pineapple harvest grows" demo_lookup.
Proof.
  apply (alias_substring_detected Difflib.get_close_matches demo_lookup
           "Pineapple harvest grows" "AAPL"
           (Meta "AAPL" (Some "Apple Inc") ["aapl"; "apple"; "apple inc"; "inc"])
           "apple").
  - vm_compute. right; left.
  - done.
  - right; left.
  - done.
  - reflexivity.
Defined.

(** ** The reverse map of the fuzzy layer *)

Lemma foldl_insert_aliases (am : gmap string string) t l a :
  foldl (λ am a, <[a := t]> am) am l !! a
  = if bool_decide (a ∈ l) then Some t else am !! a.
Proof.
  revert am. induction l as [|b l IH]; intros am; simpl; [done|].
  rewrite IH. destruct (decide (a ∈ l)) as [Hl|Hl].
  - rewrite !bool_decide_eq_true_2; [done|by right|done].
  - rewrite (bool_decide_eq_false_2 (a ∈ l)) by done.
    destruct (decide (b = a)) as [->|Hb].
    + rewrite lookup_insert_eq, bool_decide_eq_true_2; [done|left].
    + rewrite lookup_insert_ne by done.
      rewrite bool_decide_eq_false_2; [done|].
      intros [?|?]%elem_of_cons; congruence.
Qed.

Lemma alias_map_foldl (am : gmap string string) lookup a :
  foldl (λ am '(t, m), foldl (λ am a, <[a := t]> am) am (m_aliases m)) am lookup
    !! a
  = match list.last (List.filter (lists_alias a) lookup) with
    | Some e => Some e.1
    | None => am !! a
    end.
Proof.
  revert am. induction lookup as [|[t m] lookup IH]; intros am; [done|].
  cbn [foldl List.filter]. rewrite IH, foldl_insert_aliases.
  unfold lists_alias at 2. cbn [snd].
  destruct (bool_decide (a ∈ m_aliases m)); [|done].
  destruct (List.filter (lists_alias a) lookup) as [|e l] eqn:El; [done|].
  change (list.last ((t, m) :: e :: l)) with (list.last (e :: l)).
  destruct (list.last (e :: l)) eqn:El'; [done|]. by apply last_None in El'.
Qed.

(** X4.  When several entries list an alias, the reverse map of the fuzzy
    layer keeps the last of them in the order of the table: a close match
    on a shared alias yields that ticker only. *)
Theorem alias_map_last lookup a :
  alias_map lookup !! a
  = fst <$> list.last (List.filter (lists_alias a) lookup).
Proof.
  unfold alias_map. rewrite alias_map_foldl, lookup_empty.
  by destruct (list.last _).
Qed.

(** ** The dictionary *)

Lemma dict_get_set_eq {V} k (v : V) d : dict_get k (dict_set k v d) = Some v.
Proof.
  induction d as [|[k' v'] d IH]; simpl.
  - by rewrite String.eqb_refl.
  - destruct (String.eqb k k') eqn:E; simpl; by rewrite ?String.eqb_refl, ?E.
Qed.

Lemma dict_get_set_ne {V} k k' (v : V) d :
  k ≠ k' → dict_get k' (dict_set k v d) = dict_get k' d.
Proof.
  intros Hne. induction d as [|[k'' v''] d IH]; simpl.
  - by rewrite (proj2 (String.eqb_neq k' k)).
  - destruct (String.eqb_spec k k'') as [<-|Hk]; simpl.
    + by rewrite (proj2 (String.eqb_neq k' k)).
    + by rewrite IH.
Qed.

Lemma dict_keys_set {V} k (v : V) d :
  dict_keys (dict_set k v d)
  = if dict_mem k d then dict_keys d else (dict_keys d ++ [k])%list.
Proof.
  unfold dict_keys, dict_mem. induction d as [|[k' v'] d IH]; simpl; [done|].
  destruct (String.eqb_spec k k') as [->|Hk]; simpl; [done|].
  rewrite IH. by destruct (dict_get k d).
Qed.

Lemma NoDup_dict_keys_set {V} k (v : V) d :
  NoDup (dict_keys d) → NoDup (dict_keys (dict_set k v d)).
Proof.
  intros Hd. rewrite dict_keys_set.
  destruct (dict_mem k d) eqn:E; [done|].
  apply NoDup_app. split_and!; [done| |apply NoDup_singleton].
  intros x Hx ->%list_elem_of_singleton.
  apply dict_mem_elem_of in Hx. congruence.
Qed.

(** ** The keys of a built table *)

Lemma build_ticker_lookup_foldl k files (acc : lookup_table) :
  dict_get k (foldl (λ lookup f,
                let ticker := upper (Path.stem (csv_name f)) in
                dict_set ticker (make_entry ticker (guess_name f)) lookup)
             acc files)
  = match list.last (List.filter (gives_key k) files) with
    | Some f => Some (make_entry k (guess_name f))
    | None => dict_get k acc
    end.
Proof.
  revert acc. induction files as [|f files IH]; intros acc; simpl; [done|].
  rewrite IH. unfold gives_key at 2.
  destruct (String.eqb_spec (upper (Path.stem (csv_name f))) k) as [E|E].
  - rewrite E, dict_get_set_eq.
    destruct (List.filter (gives_key k) files) as [|g l] eqn:El; [done|].
    change (list.last (f :: g :: l)) with (list.last (g :: l)).
    destruct (list.last (g :: l)) eqn:El'; [done|]. by apply last_None in El'.
  - by rewrite dict_get_set_ne.
Qed.

Lemma NoDup_build_ticker_lookup dir : NoDup (dict_keys (build_ticker_lookup dir)).
Proof.
  unfold build_ticker_lookup. generalize (Path.sorted_glob_csv dir) as files.
  intros files.
  assert (∀ acc : lookup_table, NoDup (dict_keys acc) →
    NoDup (dict_keys (foldl (λ lookup f,
                let ticker := upper (Path.stem (csv_name f)) in
                dict_set ticker (make_entry ticker (guess_name f)) lookup)
             acc files))) as Hgen.
  { induction files as [|f files IH]; intros acc Hacc; simpl; [done|].
    apply IH. by apply NoDup_dict_keys_set. }
  apply Hgen. constructor.
Qed.

Lemma last_filter_Some {A} (p : A → bool) l :
  (∃ x, x ∈ l ∧ p x = true) →
  ∃ y, list.last (List.filter p l) = Some y ∧ y ∈ l ∧ p y = true.
Proof.
  intros (x & Hx & Hp).
  assert (x ∈ List.filter p l) as Hin
    by by rewrite list_elem_of_In, filter_In, <- list_elem_of_In.
  destruct (list.last (List.filter p l)) as [y|] eqn:E.
  - exists y. split; [done|].
    apply last_Some in E as [l' E].
    assert (y ∈ List.filter p l) as Hy by (rewrite E; set_solver).
    by rewrite list_elem_of_In, filter_In, <- list_elem_of_In in Hy.
  - apply last_None in E. rewrite E in Hin. by apply elem_of_nil in Hin.
Qed.

(** X5.  The table built from a directory, read as a function of the key:
    [k] is bound exactly when a file [*.csv] of the directory has the stem
    [k] once uppercased, and then to the entry of the last such file in the
    order of the file names; no key is listed twice. *)
Theorem build_ticker_lookup_get dir k :
  NoDup (dict_keys (build_ticker_lookup dir))
  ∧ dict_get k (build_ticker_lookup dir)
    = (λ f, make_entry k (guess_name f))
        <$> list.last (List.filter (gives_key k) (Path.sorted_glob_csv dir)).
Proof.
  split; [apply NoDup_build_ticker_lookup|].
  unfold build_ticker_lookup. rewrite build_ticker_lookup_foldl.
  by destruct (list.last _).
Qed.

(** X6.  Every CSV file of the directory is found again in the table: the
    uppercased stem of its name is a key, bound to an entry with that
    ticker, made from a CSV file of the directory with the same uppercased
    stem. *)
Theorem build_ticker_lookup_covers dir f :
  f ∈ dir → Path.is_csv (csv_name f) = true →
  let t := upper (Path.stem (csv_name f)) in
  ∃ g, g ∈ dir ∧ Path.is_csv (csv_name g) = true
       ∧ upper (Path.stem (csv_name g)) = t
       ∧ dict_get t (build_ticker_lookup dir) = Some (make_entry t (guess_name g)).
Proof.
  intros Hf Hcsv t. unfold build_ticker_lookup.
  rewrite build_ticker_lookup_foldl.
  destruct (last_filter_Some (gives_key t) (Path.sorted_glob_csv dir))
    as (g & -> & [Hg Hgcsv]%elem_of_sorted_glob_csv & Hk).
  { exists f. split; [by apply elem_of_sorted_glob_csv|].
    unfold gives_key. apply String.eqb_refl. }
  exists g. split_and!; try done. by apply String.eqb_eq in Hk.
Qed.

Lemma build_ticker_lookup_covers_witness :
  ∃ g, g ∈ [msft_csv; apple_csv; bare_csv]
       ∧ Path.is_csv (csv_name g) = true
       ∧ upper (Path.stem (csv_name g)) = "AAPL"
       ∧ dict_get "AAPL" (build_ticker_lookup [msft_csv; apple_csv; bare_csv])
         = Some (make_entry "AAPL" (guess_name g)).
Proof.
  apply (build_ticker_lookup_covers [msft_csv; apple_csv; bare_csv] apple_csv).
  - right; left.
  - reflexivity.
Defined.

(** ** The shape of a built entry *)

Lemma upper_upper_char c : upper_char (upper_char c) = upper_char c.
Proof. each_char c. Qed.

Lemma upper_upper s : upper (upper s) = upper s.
Proof.
  unfold upper. induction s as [|c s IH]; simpl; [done|].
  by rewrite IH, upper_upper_char.
Qed.

(** the characters of a run are characters of the text *)
Lemma runs_from_chars (P : ascii → Prop) p cur s r :
  Forall P cur → Forall P (list_ascii_of_string s) →
  r ∈ runs_from p cur s → Forall P (list_ascii_of_string r).
Proof.
  assert (∀ cur, Forall P cur → ∀ r, r ∈ flush cur →
                 Forall P (list_ascii_of_string r)) as Hflush.
  { intros [|c cur'] Hc r'; simpl; [by intros ?%elem_of_nil|].
    intros ->%list_elem_of_singleton.
    rewrite list_ascii_of_string_of_list_ascii.
    apply Forall_app. split; [|by constructor; [eapply Forall_inv|]].
    apply Forall_rev. by eapply Forall_inv_tail. }
  revert cur. induction s as [|c s IH]; intros cur Hcur Hs; simpl.
  - by apply Hflush.
  - apply Forall_cons in Hs as [Hc Hs].
    destruct (p c).
    + apply IH; [apply List.Forall_cons; assumption|exact Hs].
    + intros [?|?]%elem_of_app; [eapply Hflush; [exact Hcur|done]|].
      eapply IH; [apply List.Forall_nil|exact Hs|done].
Qed.

Lemma lower_fixed s :
  Forall (λ c, lower_char c = c) (list_ascii_of_string s) → lower s = s.
Proof.
  unfold lower. induction s as [|c s IH]; simpl; [done|].
  intros [-> ?]%Forall_cons. f_equal. by apply IH.
Qed.

Lemma lower_chars s :
  Forall (λ c, lower_char c = c) (list_ascii_of_string (lower s)).
Proof.
  unfold lower. induction s as [|c s IH]; simpl; constructor; [|done].
  apply lower_lower_char.
Qed.

Lemma alias_set_lowercase t name a :
  t ≠ "" → a ∈ alias_set t name → lower a = a ∧ a ≠ "".
Proof.
  intros Ht. rewrite elem_of_alias_set.
  intros [->|(n & -> & Hn & [->|[Hin Hlen]])].
  - split; [apply lower_lower|by apply lower_not_empty].
  - split; [apply lower_lower|by apply lower_not_empty].
  - split; [|intros ->; simpl in Hlen; lia].
    apply lower_fixed. eapply runs_from_chars; [constructor|apply lower_chars|].
    apply Hin.
Qed.

Lemma built_key_upper dir t m :
  (t, m) ∈ build_ticker_lookup dir → upper t = t.
Proof.
  unfold build_ticker_lookup.
  generalize (Path.sorted_glob_csv dir) as files. intros files.
  assert (∀ acc : lookup_table,
    (∀ t m, (t, m) ∈ acc → upper t = t) →
    (t, m) ∈ foldl (λ lookup f,
               let ticker := upper (Path.stem (csv_name f)) in
               dict_set ticker (make_entry ticker (guess_name f)) lookup)
             acc files → upper t = t) as Hgen.
  { induction files as [|f files IH]; intros acc Hacc; simpl; [apply Hacc|].
    apply IH. intros t' m' [[= -> ->]|?]%elem_of_dict_set; [|by eapply Hacc].
    apply upper_upper. }
  apply Hgen. by intros ? ? ?%elem_of_nil.
Qed.

(** X7.  An entry of a built table has an uppercase, non-empty ticker equal
    to its key; its aliases are non-empty lowercase strings, in ascending
    order and without repetition. *)
Theorem built_entry_shape dir t m :
  (t, m) ∈ build_ticker_lookup dir →
  m_ticker m = t ∧ upper t = t ∧ t ≠ ""
  ∧ Forall (λ a, lower a = a ∧ a ≠ "") (m_aliases m)
  ∧ StronglySorted PyStr.le (m_aliases m) ∧ NoDup (m_aliases m).
Proof.
  intros Hin.
  pose proof (built_key_upper _ _ _ Hin) as Hup.
  apply build_ticker_lookup_entry in Hin as [Ht Hm].
  split_and!; try done.
  - by rewrite Hm.
  - apply Forall_forall. intros a Ha. rewrite Hm in Ha.
    apply elem_of_make_entry_aliases in Ha. by eapply alias_set_lowercase.
  - rewrite Hm. simpl.
    apply sorted_StronglySorted; [apply String.leb_total|apply string_leb_trans].
  - rewrite Hm. simpl. apply NoDup_sorted, NoDup_elements.
Qed.

Lemma built_entry_shape_witness :
  let m := Meta "MSFT" (Some "Microsoft Corporation")
                ["corporation"; "microsoft"; "microsoft corporation"; "msft"] in
  ("MSFT", m) ∈ demo_lookup
  ∧ Forall (λ a, lower a = a ∧ a ≠ "") (m_aliases m)
  ∧ NoDup (m_aliases m).
Proof.
  cbn zeta.
  assert (("MSFT", Meta "MSFT" (Some "Microsoft Corporation")
                ["corporation"; "microsoft"; "microsoft corporation"; "msft"])
          ∈ demo_lookup) as Hin by (vm_compute; left).
  split; [exact Hin|].
  destruct (built_entry_shape _ _ _ Hin) as (_ & _ & _ & Hl & _ & Hn).
  by split.
Defined.

(** ** Files without a name *)

Lemma guess_name_None f :
  csv_rows f = []
  ∨ (("name" ∉ normalized_columns f) ∧ ("company" ∉ normalized_columns f)) →
  guess_name f = None.
Proof.
  unfold guess_name, first_row_at. intros [->|[Hn Hc]].
  - by repeat case_bool_decide.
  - by rewrite !bool_decide_eq_false_2.
Qed.

Lemma make_entry_None t : make_entry t None = Meta t None [lower t].
Proof.
  unfold make_entry, alias_set. f_equal. by rewrite elements_singleton.
Qed.

(** X8.  A CSV file with no data row, or with neither a [name] nor a
    [company] column, still gets its entry: when each file that gives the
    key has no name to offer, the key is bound to the entry without a name
    whose only alias is the lowercased ticker. *)
Theorem nameless_file_entry dir f :
  f ∈ dir → Path.is_csv (csv_name f) = true →
  let t := upper (Path.stem (csv_name f)) in
  (∀ g, g ∈ dir → gives_key t g = true →
        csv_rows g = []
        ∨ (("name" ∉ normalized_columns g) ∧ ("company" ∉ normalized_columns g))) →
  dict_get t (build_ticker_lookup dir) = Some (Meta t None [lower t]).
Proof.
  intros Hf Hcsv t Hall. unfold build_ticker_lookup.
  rewrite build_ticker_lookup_foldl.
  destruct (last_filter_Some (gives_key t) (Path.sorted_glob_csv dir))
    as (g & -> & [Hg _]%elem_of_sorted_glob_csv & Hk).
  { exists f. split; [by apply elem_of_sorted_glob_csv|].
    unfold gives_key. apply String.eqb_refl. }
  by rewrite (guess_name_None g (Hall g Hg Hk)), make_entry_None.
Qed.

Lemma nameless_file_entry_witness :
  dict_get "IBM" (build_ticker_lookup [msft_csv; bare_csv; CsvFile "notes.txt" [] []])
  = Some (Meta "IBM" None ["ibm"]).
Proof.
  apply (nameless_file_entry [msft_csv; bare_csv; CsvFile "notes.txt" [] []] bare_csv).
  - right; left.
  - reflexivity.
  - intros g [->|[->|[->|[]%elem_of_nil]%elem_of_cons]%elem_of_cons]%elem_of_cons Hk;
      try discriminate Hk.
    right. split; intros H; vm_compute in H;
      repeat (apply elem_of_cons in H as [H|H]; [discriminate H|]);
      by apply elem_of_nil in H.
Defined.

(** ** The ticker inside a word *)

Section TickerSubstring.
Variable gcm : string → list string → list string.

(** X9.  With a table built from the price directory, a text that holds
    the lowercased ticker anywhere, also inside a word, is given the
    ticker: the lowercased ticker is an alias and layer 3 looks for
    substrings. *)
Theorem built_ticker_substring_detected dir text t :
  dict_mem t (build_ticker_lookup dir) = true →
  contains (lower t) (lower text) = true →
  t ∈ detect_tickers_in_text gcm text (build_ticker_lookup dir).
Proof.
  intros Hmem Hc.
  apply dict_mem_elem_of in Hmem. unfold dict_keys in Hmem.
  change (List.map fst ?l) with (fst <$> l) in Hmem.
  apply list_elem_of_fmap in Hmem as ([t' m] & -> & Hin). simpl in *.
  pose proof (build_ticker_lookup_entry _ _ _ Hin) as [Ht Hm].
  apply elem_of_detect. split_and!; try done.
  - intros ->. rewrite contains_in_empty in Hc; [done|].
    by apply truthy_iff, lower_not_empty.
  - intros E. rewrite E in Hin. by apply elem_of_nil in Hin.
  - apply layers_subseteq_found_set, elem_of_layers_1_3. right; right.
    exists m. split; [done|]. unfold alias_or_name_hit.
    rewrite Hm, alias_hit_own_ticker; done.
Qed.

End TickerSubstring.

Lemma built_ticker_substring_detected_witness :
  "F" ∈ detect_tickers_in_text Difflib.get_close_matches "Profit warning"
          (build_ticker_lookup [CsvFile "f.csv" ["date"; "close"] []]).
Proof.
  apply built_ticker_substring_detected; reflexivity.
Defined.

(** ** The events one by one, and the order of the price rows *)

(** X10.  The rows of the result do not depend on one another: the windows
    of two tables of events put end to end are the windows of the first
    followed by the windows of the second. *)
Theorem compute_event_windows_app events1 events2 prices N :
  compute_event_windows (events1 ++ events2) prices N
  = (compute_event_windows events1 prices N
     ++ compute_event_windows events2 prices N)%list.
Proof. rewrite !compute_event_windows_map. apply map_app. Qed.

(** a sorted list is determined by its elements when no two of them are
    equivalent in the order *)
Lemma StronglySorted_unique {A} (leb : A → A → bool) l1 l2 :
  StronglySorted (λ a b, leb a b = true) l1 →
  StronglySorted (λ a b, leb a b = true) l2 →
  l1 ≡ₚ l2 →
  (∀ x y, x ∈ l1 → y ∈ l1 → leb x y = true → leb y x = true → x = y) →
  l1 = l2.
Proof.
  intros H1. revert l2. induction H1 as [|x l1 Hs1 IH Hx]; intros l2 H2 Hp Hanti.
  - by apply Permutation_nil_l in Hp.
  - destruct H2 as [|y l2 Hs2 Hy].
    { by apply Permutation_nil_r in Hp. }
    assert (x = y) as ->.
    { assert (x ∈ y :: l2) as Hxin by (rewrite <- Hp; left).
      assert (y ∈ x :: l1) as Hyin by (rewrite Hp; left).
      apply elem_of_cons in Hxin as [?|Hxin]; [congruence|].
      apply elem_of_cons in Hyin as [?|Hyin]; [congruence|].
      apply Hanti; [left|by right| |].
      - rewrite Forall_forall in Hx. by apply Hx.
      - rewrite Forall_forall in Hy. by apply Hy. }
    f_equal. apply IH; [done|by eapply Permutation_cons_inv|].
    intros a b Ha Hb. apply Hanti; by right.
Qed.

Lemma NoDup_fmap_eq {A B} (f : A → B) l x y :
  NoDup (f <$> l) → x ∈ l → y ∈ l → f x = f y → x = y.
Proof.
  induction l as [|a l IH]; simpl; [by intros _ ?%elem_of_nil|].
  intros [Ha Hl]%NoDup_cons [->|Hx]%elem_of_cons [->|Hy]%elem_of_cons E; auto.
  - destruct Ha. rewrite E. by apply list_elem_of_fmap_2.
  - destruct Ha. rewrite <- E. by apply list_elem_of_fmap_2.
Qed.

Lemma price_leb_antisym_day p q :
  price_leb (normalize_date p) (normalize_date q) = true →
  price_leb (normalize_date q) (normalize_date p) = true →
  price_key p = price_key q.
Proof.
  rewrite !price_leb_iff. unfold price_key, timestamp_leb. simpl.
  intros [[H1 N1]|[E1 T1]] [[H2 N2]|[E2 T2]].
  - destruct N1. by apply String.leb_antisym.
  - by destruct N1.
  - by destruct N2.
  - f_equal; [done|]. lia.
Qed.

Lemma sort_prices_Permutation prices prices' :
  prices ≡ₚ prices' → NoDup (price_key <$> prices) →
  sort_prices (List.map normalize_date prices)
  = sort_prices (List.map normalize_date prices').
Proof.
  intros Hp Hnd. unfold sort_prices.
  apply (StronglySorted_unique price_leb).
  - apply sorted_StronglySorted; [apply price_leb_total|apply price_leb_trans].
  - apply sorted_StronglySorted; [apply price_leb_total|apply price_leb_trans].
  - rewrite !sorted_Permutation. by apply Permutation_map.
  - intros x y. rewrite !elem_of_sorted.
    change (List.map normalize_date prices) with (normalize_date <$> prices).
    intros (p & -> & Hp1)%list_elem_of_fmap (q & -> & Hq)%list_elem_of_fmap H1 H2.
    f_equal. eapply NoDup_fmap_eq; [exact Hnd|done..|].
    by apply price_leb_antisym_day.
Qed.

(** X11.  When no two rows of the price table share a ticker and a calendar
    day, the order of its rows does not matter: a table with the same rows
    in another order gives the same windows. *)
Theorem price_order_irrelevant events prices prices' N :
  prices ≡ₚ prices' → NoDup (price_key <$> prices) →
  compute_event_windows events prices N = compute_event_windows events prices' N.
Proof.
  intros Hp Hnd. rewrite !compute_event_windows_map.
  unfold prepare_prices. by rewrite (sort_prices_Permutation prices prices').
Qed.

Lemma price_order_irrelevant_witness :
  compute_event_windows demo_events demo_prices 3
  = compute_event_windows demo_events (rev demo_prices) 3.
Proof.
  apply price_order_irrelevant.
  - apply Permutation_rev.
  - refine (bool_decide_unpack _ _). vm_compute. reflexivity.
Defined.

(** with two rows for one ticker and day the order shows: the later row
    of the two is the one divided by *)
Example price_order_matters :
  let e := [event_on "AAPL" 10] in
  let a := price_on "AAPL" 11 100 in
  let b := price_on "AAPL" 11 50 in
  List.map ar (compute_event_windows e [a; b; price_on "AAPL" 12 100] 2)
  = [[Some nan; Some 1]]%float
  ∧ List.map ar (compute_event_windows e [b; a; price_on "AAPL" 12 100] 2)
    = [[Some nan; Some 0]]%float.
Proof. split; vm_compute; reflexivity. Qed.

(** *** NaN in a window *)

Lemma add_nan_r x : (x + nan)%float = nan.
Proof.
  apply float_of_SF_nan. rewrite FloatAxioms.add_spec.
  change (Prim2SF nan) with S754_nan.
  unfold SF64add, SFadd. by destruct (Prim2SF x) as [| | |[] ? ?].
Qed.

Lemma add_nan_l x : (nan + x)%float = nan.
Proof. apply float_of_SF_nan. by rewrite FloatAxioms.add_spec. Qed.

Lemma py_sum_nan vals : nan ∈ vals → py_sum vals = nan.
Proof.
  unfold py_sum. generalize 0%float as acc. intros acc Hin. revert acc.
  induction vals as [|v vals IH]; intros acc; [by apply elem_of_nil in Hin|].
  simpl. apply elem_of_cons in Hin as [<-|Hin]; [|by apply IH].
  rewrite add_nan_r. clear. induction vals as [|v vals IH]; simpl; [done|].
  by rewrite add_nan_l.
Qed.

Lemma car_of_nan ars : Some nan ∈ ars → car_of ars = Some nan.
Proof.
  intros Hin. unfold car_of.
  assert (nan ∈ omap id ars) as H by (apply list_elem_of_omap; by exists (Some nan)).
  destruct (omap id ars) eqn:E; [by apply elem_of_nil in H|].
  by rewrite py_sum_nan.
Qed.

(** X12.  A window that reaches the first observation of its symbol has no
    usable cumulative return: if the first record of the series of the
    event's ticker falls on the day [event_date + d] with [d] in [1 .. N],
    then [ar_d] is NaN and [car_1_3] is NaN, whatever the other days hold. *)
Theorem first_observation_poisons_car events prices N i e t E d p series :
  events !! i = Some e →
  usable_ticker e = Some t → event_date e = Some E →
  symbol_series prices t = p :: series →
  ts_day (pp_date p) = (E + Z.of_nat d)%Z → (1 ≤ d ≤ N)%nat →
  ∃ w, compute_event_windows events prices N !! i = Some w
       ∧ ar w !! (d - 1)%nat = Some (Some nan)
       ∧ car_1_3 w = Some nan.
Proof.
  intros Hi Ht HE Hs Hday Hd. rewrite compute_event_windows_map.
  change (List.map ?f events) with (f <$> events).
  rewrite list_lookup_fmap, Hi. simpl. eexists. split; [done|]. simpl.
  assert (window_returns (ticker_groups (prepare_prices prices)) N e
            !! (d - 1)%nat = Some (Some nan)) as Har.
  { unfold window_returns. rewrite Ht, groups_of_symbol, Hs, HE.
    rewrite lookup_map_seq by done. f_equal.
    rewrite forward_return_observed. unfold observed_return. simpl.
    by rewrite (proj2 (Z.eqb_eq _ _) Hday). }
  split; [done|]. apply car_of_nan. by eapply list_elem_of_lookup_2.
Qed.

Lemma first_observation_poisons_car_witness :
  ∃ w, compute_event_windows [event_on "MSFT" 8] demo_prices 3 !! 0%nat = Some w
       ∧ ar w !! 0%nat = Some (Some nan)
       ∧ car_1_3 w = Some nan.
Proof.
  apply (first_observation_poisons_car [event_on "MSFT" 8] demo_prices 3 0
           (event_on "MSFT" 8) "MSFT" 8 1 (normalize_date (price_on "MSFT" 9 8))
           [normalize_date (price_on "MSFT" 11 10)]);
    try reflexivity. lia.
Defined.

(** ** Price rows under a ticker that is not uppercase *)

Lemma usable_ticker_upper e t : usable_ticker e = Some t → upper t = t.
Proof.
  unfold usable_ticker. destruct (pick_ticker e) as [| |s|]; try done.
  destruct (truthy s); [|done]. intros [= <-]. apply upper_upper.
Qed.

Lemma symbol_series_nil prices t :
  Forall (λ p, pp_ticker p ≠ t) prices → symbol_series prices t = [].
Proof.
  intros Hall. unfold symbol_series.
  replace (List.filter _ _) with (@nil price_point); [done|].
  induction Hall as [|p prices Hp _ IH]; simpl; [done|].
  by rewrite (proj2 (String.eqb_neq _ _) Hp).
Qed.

(** X13.  The helper uppercases the ticker of the event and not the
    tickers of the price table: price rows whose ticker is not already
    uppercase are never read, and a table that has only such rows gives
    every event an empty window. *)
Theorem lowercase_prices_unused events prices N w :
  Forall (λ p, upper (pp_ticker p) ≠ pp_ticker p) prices →
  w ∈ compute_event_windows events prices N →
  ar w = replicate N None ∧ car_1_3 w = None.
Proof.
  intros Hall. rewrite compute_event_windows_map.
  change (List.map ?f events) with (f <$> events).
  intros (e & -> & _)%list_elem_of_fmap. simpl.
  assert (window_returns (ticker_groups (prepare_prices prices)) N e
          = replicate N None) as ->.
  { unfold window_returns. destruct (usable_ticker e) as [t|] eqn:Ht; [|done].
    rewrite groups_of_symbol, symbol_series_nil; [done|].
    eapply Forall_impl; [exact Hall|]. intros p Hp E. apply Hp.
    rewrite E. by eapply usable_ticker_upper. }
  split; [done|]. apply car_of_replicate_None.
Qed.

Lemma lowercase_prices_unused_witness :
  let w := WindowRow (event_on "aapl" 10) [None; None] None in
  w ∈ compute_event_windows [event_on "aapl" 10]
        [price_on "aapl" 10 100; price_on "aapl" 11 101]%float 2
  ∧ ar w = replicate 2 None ∧ car_1_3 w = None.
Proof.
  cbn zeta.
  assert (WindowRow (event_on "aapl" 10) [None; None] None
          ∈ compute_event_windows [event_on "aapl" 10]
              [price_on "aapl" 10 100; price_on "aapl" 11 101]%float 2) as Hin
    by (vm_compute; left).
  split; [exact Hin|].
  apply (lowercase_prices_unused [event_on "aapl" 10]
           [price_on "aapl" 10 100; price_on "aapl" 11 101]%float 2);
    [|exact Hin].
  repeat constructor; by vm_compute.
Defined.

(** ** The panel that loads *)

Lemma date_leb_total a b : date_leb a b = true ∨ date_leb b a = true.
Proof. destruct a, b; simpl; auto. rewrite !Z.leb_le. lia. Qed.

Lemma date_leb_trans a b c :
  date_leb a b = true → date_leb b c = true → date_leb a c = true.
Proof. destruct a, b, c; simpl; auto; try done. rewrite !Z.leb_le. lia. Qed.

Lemma panel_leb_iff a b :
  panel_leb a b = true ↔
    (String.leb (p_ticker a) (p_ticker b) = true ∧ p_ticker a ≠ p_ticker b)
  ∨ (p_ticker a = p_ticker b ∧ date_leb (p_date a) (p_date b) = true).
Proof.
  unfold panel_leb.
  rewrite orb_true_iff, andb_true_iff, string_ltb_leb, String.eqb_eq. done.
Qed.

Lemma panel_leb_total a b : panel_leb a b = true ∨ panel_leb b a = true.
Proof.
  rewrite !panel_leb_iff.
  destruct (decide (p_ticker a = p_ticker b)) as [E|E].
  - destruct (date_leb_total (p_date a) (p_date b)); auto.
  - destruct (String.leb_total (p_ticker a) (p_ticker b)); auto.
Qed.

Lemma panel_leb_trans a b c :
  panel_leb a b = true → panel_leb b c = true → panel_leb a c = true.
Proof.
  rewrite !panel_leb_iff.
  intros [[H1 N1]|[E1 T1]] [[H2 N2]|[E2 T2]].
  - left. split; [by eapply string_leb_trans|].
    intros E. rewrite <- E in H2. by apply N1, String.leb_antisym.
  - left. by rewrite <- E2.
  - left. by rewrite E1.
  - right. split; [congruence|]. by eapply date_leb_trans.
Qed.

Section PanelFacts.
Variable data_dir : string.
Variable repr_list : list string → string.
Variable to_datetime : option string → option Z.

Lemma load_frames_inr csv_files frames :
  load_frames repr_list to_datetime csv_files = inr frames ↔
  Forall (λ f, has_required f = true) csv_files
  ∧ frames = List.map (λ f, List.map (clean_row to_datetime f) (csv_rows f))
                      csv_files.
Proof.
  revert frames. induction csv_files as [|f rest IH]; intros frames; simpl.
  - split; [by intros [= <-]|by intros [_ ->]].
  - destruct (has_required f) eqn:Hf.
    + destruct (load_frames repr_list to_datetime rest) as [e|frames'] eqn:E.
      * split; [done|]. intros [[_ Hrest]%Forall_cons ->].
        discriminate (proj2 (IH _) (conj Hrest eq_refl)).
      * destruct (proj1 (IH _) eq_refl) as [Hrest ->].
        split; [intros [= <-]|intros [_ ->]]; [|done].
        split; [by constructor|done].
    + split; [done|]. intros [[? _]%Forall_cons _]. congruence.
Qed.

Lemma elem_of_cleaned_rows csv_files r :
  r ∈ cleaned_rows to_datetime csv_files ↔
  ∃ f row, f ∈ csv_files ∧ row ∈ csv_rows f ∧ r = clean_row to_datetime f row.
Proof.
  unfold cleaned_rows. rewrite list_elem_of_In, in_concat. split.
  - intros (l & (f & <- & Hf)%in_map_iff & (row & <- & Hrow)%in_map_iff).
    exists f, row. by rewrite !list_elem_of_In.
  - intros (f & row & Hf & Hrow & ->).
    exists (List.map (clean_row to_datetime f) (csv_rows f)). split.
    + apply in_map_iff. exists f. by rewrite <- list_elem_of_In.
    + apply in_map_iff. exists row. by rewrite <- list_elem_of_In.
Qed.

Lemma cleaned_rows_adj_close csv_files :
  Forall (λ r, p_adj_close r = p_close r)
         (sorted panel_leb (cleaned_rows to_datetime csv_files)).
Proof.
  apply Forall_forall. intros r. rewrite elem_of_sorted.
  by intros (g & row & _ & _ & ->)%elem_of_cleaned_rows.
Qed.

Lemma load_price_panel_inr fs rows :
  load_price_panel data_dir repr_list to_datetime fs = inr rows ↔
  ∃ dir, fs = Some dir
    ∧ Path.sorted_glob_csv dir ≠ []
    ∧ Forall (λ f, has_required f = true) (Path.sorted_glob_csv dir)
    ∧ rows = sorted panel_leb (cleaned_rows to_datetime (Path.sorted_glob_csv dir)).
Proof.
  unfold load_price_panel. split.
  - destruct fs as [dir|]; [|done]. exists dir. split; [done|].
    destruct (Path.sorted_glob_csv dir) as [|f files] eqn:E; [done|].
    destruct (load_frames _ _ (f :: files)) as [e|frames] eqn:El; [done|].
    apply load_frames_inr in El as [Hreq ->].
    injection H as <-. by split_and!.
  - intros (dir & -> & Hne & Hreq & ->).
    destruct (Path.sorted_glob_csv dir) as [|f files] eqn:E; [done|].
    by rewrite (proj2 (load_frames_inr _ _) (conj Hreq eq_refl)).
Qed.

(** X14.  Take a directory in which no CSV file has two columns that
    normalize to the same required name.  When [load_price_panel] returns
    a table, the directory holds a file [*.csv], each of its CSV files has
    the six required columns, and the table holds every data row of every
    CSV file once, with [adj_close] equal to [close] and the uppercased
    stem of its file as ticker, in ascending order of ticker and then
    date, rows without a date last within their ticker. *)
Theorem load_price_panel_table dir rows :
  Forall (λ f, required_once f = true) (Path.sorted_glob_csv dir) →
  load_price_panel data_dir repr_list to_datetime (Some dir) = inr rows →
  Path.sorted_glob_csv dir ≠ []
  ∧ Forall (λ f, has_required f = true) (Path.sorted_glob_csv dir)
  ∧ rows = sorted panel_leb (cleaned_rows to_datetime (Path.sorted_glob_csv dir))
  ∧ rows ≡ₚ cleaned_rows to_datetime (Path.sorted_glob_csv dir)
  ∧ StronglySorted (λ a b, panel_leb a b = true) rows
  ∧ Forall (λ r, p_adj_close r = p_close r) rows.
Proof.
  intros _ (dir' & [= <-] & Hne & Hreq & ->)%load_price_panel_inr.
  split_and!; try done.
  - apply sorted_Permutation.
  - apply sorted_StronglySorted; [apply panel_leb_total|apply panel_leb_trans].
  - apply cleaned_rows_adj_close.
Qed.

(** X15.  The price panel and the lookup table are keyed alike: the ticker
    of every row of the loaded panel is a key of the table that
    [build_ticker_lookup] makes from the same directory. *)
Theorem panel_tickers_in_lookup dir rows r :
  load_price_panel data_dir repr_list to_datetime (Some dir) = inr rows →
  r ∈ rows →
  dict_mem (p_ticker r) (build_ticker_lookup dir) = true.
Proof.
  intros (dir' & [= <-] & _ & _ & ->)%load_price_panel_inr.
  rewrite elem_of_sorted.
  intros (f & row & Hf & _ & ->)%elem_of_cleaned_rows. simpl.
  unfold dict_mem, build_ticker_lookup. rewrite build_ticker_lookup_foldl.
  destruct (last_filter_Some (gives_key (upper (Path.stem (csv_name f))))
              (Path.sorted_glob_csv dir)) as (g & -> & _); [|done].
  exists f. split; [done|]. apply String.eqb_refl.
Qed.

End PanelFacts.

Lemma load_price_panel_table_witness :
  let dir := [CsvFile "notes.txt" [] []; good_csv] in
  let rows := [PanelRow (Some 19724%Z) (Some "187.2") (Some "188.4") (Some "183.9")
                 (Some "185.6") (Some "82488700") (Some "185.6") "AAPL"] in
  Forall (λ f, required_once f = true) (Path.sorted_glob_csv dir)
  ∧ load_price_panel "data/prices" repr_plain_list (λ _, Some 19724%Z) (Some dir)
    = inr rows
  ∧ rows ≡ₚ cleaned_rows (λ _, Some 19724%Z) (Path.sorted_glob_csv dir)
  ∧ Forall (λ r, p_adj_close r = p_close r) rows.
Proof.
  cbn zeta.
  assert (Forall (λ f, required_once f = true)
            (Path.sorted_glob_csv [CsvFile "notes.txt" [] []; good_csv])) as Honce
    by (vm_compute; by repeat constructor).
  assert (load_price_panel "data/prices" repr_plain_list (λ _, Some 19724%Z)
            (Some [CsvFile "notes.txt" [] []; good_csv])
          = inr [PanelRow (Some 19724%Z) (Some "187.2") (Some "188.4") (Some "183.9")
                   (Some "185.6") (Some "82488700") (Some "185.6") "AAPL"]) as Hload
    by (vm_compute; reflexivity).
  destruct (load_price_panel_table _ _ _ _ _ Honce Hload) as (_ & _ & _ & Hp & _ & Ha).
  by split_and!.
Defined.

(** a file with two columns that read [date] is outside the hypothesis *)
Example required_once_twice :
  required_once
    (CsvFile "X.csv" ["Date"; " date"; "open"; "high"; "low"; "close"; "volume"] [])
  = false.
Proof. reflexivity. Qed.

Lemma panel_tickers_in_lookup_witness :
  dict_mem "AAPL" (build_ticker_lookup [CsvFile "notes.txt" [] []; good_csv]) = true.
Proof.
  apply (panel_tickers_in_lookup "data/prices" repr_plain_list (λ _, Some 19724%Z)
           [CsvFile "notes.txt" [] []; good_csv]
           [PanelRow (Some 19724%Z) (Some "187.2") (Some "188.4") (Some "183.9")
              (Some "185.6") (Some "82488700") (Some "185.6") "AAPL"]
           (PanelRow (Some 19724%Z) (Some "187.2") (Some "188.4") (Some "183.9")
              (Some "185.6") (Some "82488700") (Some "185.6") "AAPL")).
  - vm_compute. reflexivity.
  - left.
Defined.

(** ** The news feed *)

Lemma length_slice_to {A} (n : Z) (l : list A) :
  length (NewsLoader.slice_to n l)
  = (if (0 <=? n)%Z then Nat.min (Z.to_nat n) (length l)
     else length l - Z.to_nat (- n))%nat.
Proof.
  unfold NewsLoader.slice_to. destruct (0 <=? n)%Z; rewrite length_take; lia.
Qed.

Lemma lookup_slice_to {A} (n : Z) (l : list A) i x :
  NewsLoader.slice_to n l !! i = Some x → l !! i = Some x.
Proof.
  unfold NewsLoader.slice_to.
  destruct (0 <=? n)%Z; by intros [? _]%lookup_take_Some.
Qed.

(** X16.  [parse_rss_feed] keeps the entries of the feed in their order:
    its [i]-th item is made from the [i]-th entry of the feed (title,
    summary and link, the empty string for a missing one; the title of the
    feed as source; the time of [published_parsed], else of
    [updated_parsed], else None).  It has [max_items] items, or all of
    them when the feed has fewer, when [max_items] is not negative; a
    negative [max_items] drops that many entries from the end instead. *)
Theorem parse_rss_feed_items fromtimestamp feed max_items :
  let items := NewsLoader.parse_rss_feed fromtimestamp feed max_items in
  let n := length (NewsLoader.entries feed) in
  length items
  = (if (0 <=? max_items)%Z then Nat.min (Z.to_nat max_items) n
     else n - Z.to_nat (- max_items))%nat
  ∧ ∀ i item, items !! i = Some item →
      ∃ e, NewsLoader.entries feed !! i = Some e
        ∧ NewsLoader.n_title item = default "" (NewsLoader.e_title e)
        ∧ NewsLoader.summary item = default "" (NewsLoader.e_summary e)
        ∧ NewsLoader.link item = default "" (NewsLoader.e_link e)
        ∧ NewsLoader.source item = default "" (NewsLoader.feed_title feed)
        ∧ NewsLoader.published item
          = match NewsLoader.published_parsed e, NewsLoader.updated_parsed e with
            | Some t, _ => Some (fromtimestamp t)
            | None, Some t => Some (fromtimestamp t)
            | None, None => None
            end.
Proof.
  cbv zeta. unfold NewsLoader.parse_rss_feed.
  change (List.map ?f ?l) with (f <$> l). split.
  - by rewrite length_fmap, length_slice_to.
  - intros i item. rewrite list_lookup_fmap.
    destruct (NewsLoader.slice_to max_items (NewsLoader.entries feed) !! i)
      as [e|] eqn:E; [|done].
    intros [= <-]. exists e. apply lookup_slice_to in E.
    by split_and!.
Qed.

(** ** One row per headline and symbol *)

Lemma length_flat_map {A B} (f : A → list B) l :
  length (flat_map f l) = sum_list (List.map (λ x, length (f x)) l).
Proof.
  induction l as [|x l IH]; simpl; [done|]. by rewrite length_app, IH.
Qed.

Section ExplodeFacts.
Variable gcm : string → list string → list string.
Context {row : Type} (title_of : row → Explode.title_cell).

Lemma elem_of_explode_news df_news lookup r t :
  (r, t) ∈ Explode.explode_news_by_ticker gcm title_of df_news lookup ↔
  r ∈ df_news ∧
  match t with
  | Some t => t ∈ detect_tickers_in_text gcm (Explode.str (title_of r)) lookup
  | None => detect_tickers_in_text gcm (Explode.str (title_of r)) lookup = []
  end.
Proof.
  unfold Explode.explode_news_by_ticker.
  rewrite list_elem_of_In, in_flat_map. split.
  - intros (r' & Hr' & Hin). rewrite <- list_elem_of_In in Hr'.
    destruct (detect_tickers_in_text gcm _ lookup) as [|t0 l] eqn:E.
    + apply list_elem_of_In, list_elem_of_singleton in Hin as [= -> ->]. done.
    + apply in_map_iff in Hin as (t' & [= <- <-] & Ht').
      split; [done|]. rewrite E. by apply list_elem_of_In.
  - intros [Hr Ht]. exists r. split; [by apply list_elem_of_In|].
    destruct t as [t|].
    + destruct (detect_tickers_in_text gcm _ lookup) as [|t0 l] eqn:E;
        [by apply elem_of_nil in Ht|].
      apply in_map_iff. exists t. split; [done|]. by apply list_elem_of_In.
    + rewrite Ht. by left.
Qed.

(** X17.  [explode_news_by_ticker] loses no headline: a row of the news
    table is in the result once for each symbol detected in its title, and
    once with [detected_ticker = None] when none is detected; the result
    has nothing else. *)
Theorem explode_news_rows df_news lookup :
  let detected r :=
    detect_tickers_in_text gcm (Explode.str (title_of r)) lookup in
  let out := Explode.explode_news_by_ticker gcm title_of df_news lookup in
  length out = sum_list (List.map (λ r, Nat.max 1 (length (detected r))) df_news)
  ∧ (∀ r t, (r, Some t) ∈ out ↔ r ∈ df_news ∧ t ∈ detected r)
  ∧ (∀ r, (r, None) ∈ out ↔ r ∈ df_news ∧ detected r = []).
Proof.
  cbv zeta. split_and!.
  - unfold Explode.explode_news_by_ticker. rewrite length_flat_map. f_equal.
    apply map_ext. intros r.
    destruct (detect_tickers_in_text gcm _ lookup); simpl; [done|].
    by rewrite length_map.
  - intros r t. apply (elem_of_explode_news df_news lookup r (Some t)).
  - intros r. apply (elem_of_explode_news df_news lookup r None).
Qed.

End ExplodeFacts.

(** ** From the headlines to the event windows *)

Lemma foldl_min_le d ds :
  (foldl Z.min d ds ≤ d)%Z ∧ ∀ x, x ∈ ds → (foldl Z.min d ds ≤ x)%Z.
Proof.
  revert d. induction ds as [|a ds IH]; intros d; simpl.
  - split; [lia|]. by intros x ?%elem_of_nil.
  - destruct (IH (Z.min d a)) as [H1 H2]. split; [lia|].
    intros x [->|Hx]%elem_of_cons; [lia|by apply H2].
Qed.

Lemma foldl_max_ge d ds :
  (d ≤ foldl Z.max d ds)%Z ∧ ∀ x, x ∈ ds → (x ≤ foldl Z.max d ds)%Z.
Proof.
  revert d. induction ds as [|a ds IH]; intros d; simpl.
  - split; [lia|]. by intros x ?%elem_of_nil.
  - destruct (IH (Z.max d a)) as [H1 H2]. split; [lia|].
    intros x [->|Hx]%elem_of_cons; [lia|by apply H2].
Qed.

Lemma fetch_range_covers dates lo hi E :
  App.fetch_range dates = Some (lo, hi) → E ∈ dates →
  (lo + 5 ≤ E ∧ E + 5 ≤ hi)%Z.
Proof.
  destruct dates as [|d ds]; [done|]. simpl. intros [= <- <-] HE.
  destruct (foldl_min_le d ds) as [H1 H2], (foldl_max_ge d ds) as [H3 H4].
  apply elem_of_cons in HE as [->|HE]; [lia|].
  specialize (H2 _ HE). specialize (H4 _ HE). lia.
Qed.

Section MainFacts.
Variable gcm : string → list string → list string.

Lemma elem_of_explode merged x :
  x ∈ App.explode merged ↔
  App.x_row x ∈ merged
  ∧ App.x_detected_ticker x ∈ App.m_detected_tickers (App.x_row x).
Proof.
  unfold App.explode. rewrite list_elem_of_In, in_flat_map. split.
  - intros (r & Hr%list_elem_of_In & Hin).
    destruct (App.m_detected_tickers r) as [|t l] eqn:E; [done|].
    apply in_map_iff in Hin as (tk & <- & Htk). simpl.
    rewrite E. split; [done|]. by apply list_elem_of_In.
  - intros [Hr Ht]. exists (App.x_row x). split; [by apply list_elem_of_In|].
    destruct (App.m_detected_tickers (App.x_row x)) as [|t l] eqn:E;
      [by apply elem_of_nil in Ht|].
    apply in_map_iff. exists (App.x_detected_ticker x).
    split; [by destruct x|by apply list_elem_of_In].
Qed.

Lemma length_explode merged :
  length (App.explode merged)
  = sum_list (List.map (λ r, length (App.m_detected_tickers r)) merged).
Proof.
  unfold App.explode. rewrite length_flat_map. f_equal.
  apply map_ext. intros r.
  destruct (App.m_detected_tickers r); [done|]. by rewrite length_map.
Qed.

Lemma elem_of_needed_tickers exploded t :
  t ∈ App.needed_tickers exploded ↔
  ∃ x, x ∈ exploded ∧ t = upper (App.x_detected_ticker x).
Proof.
  unfold App.needed_tickers.
  rewrite elem_of_sorted, elem_of_elements, elem_of_list_to_set.
  change (List.map ?f exploded) with (f <$> exploded).
  rewrite list_elem_of_fmap. naive_solver.
Qed.

(** X18.  In [main] the rows handed to [compute_event_windows] are one per
    headline and symbol detected in it, headlines without a symbol giving
    none; the ticker of such a row is a key of the table built from the
    price directory, it is the ticker the helper looks up, and it is among
    the tickers whose prices are asked for, a sorted list without
    repetition. *)
Theorem main_events_covered dir df_news :
  let lookup := build_ticker_lookup dir in
  let merged := App.detect_column gcm lookup df_news in
  let exploded := App.explode merged in
  length exploded
  = sum_list (List.map (λ item, length (detect_tickers_in_text gcm
                                         (NewsLoader.n_title item) lookup))
                       df_news)
  ∧ StronglySorted PyStr.le (App.needed_tickers exploded)
  ∧ NoDup (App.needed_tickers exploded)
  ∧ ∀ x, x ∈ exploded →
      dict_mem (App.x_detected_ticker x) lookup = true
      ∧ usable_ticker (App.as_event x) = Some (App.x_detected_ticker x)
      ∧ App.x_detected_ticker x ∈ App.needed_tickers exploded.
Proof.
  cbv zeta. split_and!.
  - rewrite length_explode. unfold App.detect_column. by rewrite map_map.
  - apply sorted_StronglySorted; [apply String.leb_total|apply string_leb_trans].
  - apply NoDup_sorted, NoDup_elements.
  - intros x Hx. pose proof Hx as Hx'.
    apply elem_of_explode in Hx' as [Hrow Htk].
    unfold App.detect_column in Hrow.
    change (List.map ?f df_news) with (f <$> df_news) in Hrow.
    apply list_elem_of_fmap in Hrow as (item & Hrow & _).
    rewrite Hrow in Htk. simpl in Htk.
    apply elem_of_detect in Htk as (_ & _ & Hne & Hkey%found_set_keys).
    assert (upper (App.x_detected_ticker x) = App.x_detected_ticker x) as Hup.
    { unfold dict_keys in Hkey.
      change (List.map fst ?l) with (fst <$> l) in Hkey.
      apply list_elem_of_fmap in Hkey as ([t m] & -> & Hin).
      by apply built_key_upper in Hin. }
    split_and!.
    + by apply dict_mem_elem_of.
    + rewrite (usable_ticker_of_string _ (App.x_detected_ticker x)); [|done..].
      by rewrite Hup.
    + apply elem_of_needed_tickers. exists x. by rewrite Hup.
Qed.

(** X19.  When every exploded row has a date, the range of days that
    [main] asks of the price source holds, for each row, the event date
    and the five days on either side of it: all the days
    [event_date + 1 .. event_date + 3] that [compute_event_windows] looks
    up lie in the range. *)
Theorem main_range_covers_windows exploded dates lo hi x E d :
  mapM (λ x, event_date (App.as_event x)) exploded = Some dates →
  App.fetch_range dates = Some (lo, hi) →
  x ∈ exploded → event_date (App.as_event x) = Some E →
  (1 ≤ d ≤ 3)%nat →
  (lo ≤ E + Z.of_nat d ≤ hi)%Z.
Proof.
  intros Hdates Hrange Hx HE Hd.
  apply mapM_Some_1 in Hdates.
  apply list_elem_of_lookup in Hx as [i Hi].
  destruct (Forall2_lookup_l _ _ _ _ _ Hdates Hi) as (E' & HE' & Heq).
  rewrite HE in Heq. injection Heq as <-.
  apply list_elem_of_lookup_2 in HE'.
  destruct (fetch_range_covers _ _ _ _ Hrange HE'). lia.
Qed.

End MainFacts.

Lemma main_events_covered_witness :
  let df_news :=
    [NewsLoader.NewsItem (Some (Timestamp 19724 3600)) "Apple and $MSFT rally"
                         "" "" "feed";
     NewsLoader.NewsItem None "Markets calm" "" "" "feed"] in
  let exploded :=
    App.explode (App.detect_column Difflib.get_close_matches demo_lookup df_news) in
  List.map App.x_detected_ticker exploded = ["AAPL"; "MSFT"]
  ∧ App.needed_tickers exploded = ["AAPL"; "MSFT"]
  ∧ Forall (λ x, usable_ticker (App.as_event x) = Some (App.x_detected_ticker x)
                 ∧ App.x_detected_ticker x ∈ App.needed_tickers exploded)
           exploded.
Proof.
  cbn zeta. split; [vm_compute; reflexivity|]. split; [vm_compute; reflexivity|].
  apply Forall_forall. intros x Hx.
  destruct (main_events_covered Difflib.get_close_matches
              [msft_csv; bare_csv; apple_csv; CsvFile "notes.txt" [] []]
              [NewsLoader.NewsItem (Some (Timestamp 19724 3600))
                 "Apple and $MSFT rally" "" "" "feed";
               NewsLoader.NewsItem None "Markets calm" "" "" "feed"])
    as (_ & _ & _ & Hall).
  destruct (Hall x Hx) as (_ & Hu & Hn). by split.
Defined.

Lemma main_range_covers_windows_witness :
  App.fetch_range [19724; 19730]%Z = Some (19719, 19735)%Z
  ∧ (19719 ≤ 19730 + Z.of_nat 3 ≤ 19735)%Z.
Proof.
  split; [reflexivity|].
  apply (main_range_covers_windows
           (App.explode
              [App.Merged (NewsLoader.NewsItem (Some (Timestamp 19724 3600))
                             "Apple rallies" "" "" "feed")
                          ["AAPL"] (Some 19724%Z);
               App.Merged (NewsLoader.NewsItem (Some (Timestamp 19730 0))
                             "Microsoft slips" "" "" "feed")
                          ["MSFT"] (Some 19730%Z)])
           [19724; 19730]%Z 19719 19735
           (App.Exploded
              (App.Merged (NewsLoader.NewsItem (Some (Timestamp 19730 0))
                             "Microsoft slips" "" "" "feed")
                          ["MSFT"] (Some 19730%Z)) "MSFT")).
  - reflexivity.
  - reflexivity.
  - right; left.
  - reflexivity.
  - lia.
Defined.

(** ** The two ways to explode *)

Lemma flat_map_of_map {A B C} (f : B → list C) (g : A → B) l :
  flat_map f (List.map g l) = flat_map (λ x, f (g x)) l.
Proof. induction l as [|x l IH]; simpl; [done|]. by rewrite IH. Qed.

Lemma map_flat_map {A B C} (h : B → C) (f : A → list B) l :
  List.map h (flat_map f l) = flat_map (λ x, List.map h (f x)) l.
Proof. induction l as [|x l IH]; simpl; [done|]. by rewrite map_app, IH. Qed.

Lemma filter_flat_map {A B} (p : B → bool) (f : A → list B) l :
  List.filter p (flat_map f l) = flat_map (λ x, List.filter p (f x)) l.
Proof.
  induction l as [|x l IH]; simpl; [done|]. by rewrite List.filter_app, IH.
Qed.

Lemma filter_tagged {A} (r : A) (l : list string) :
  List.filter (λ p : A * option string,
                 match p.2 with Some _ => true | None => false end)
              (List.map (λ t, (r, Some t)) l)
  = List.map (λ t, (r, Some t)) l.
Proof. induction l as [|t l IH]; simpl; [done|]. by rewrite IH. Qed.

Section TwoExplodes.
Variable gcm : string → list string → list string.

(** X20.  On news items, whose title is a string, the rows that [main]
    explodes are the rows of [explode_news_by_ticker] that carry a ticker,
    in the same order: [main] leaves out the headlines in which no symbol
    is detected, which [explode_news_by_ticker] keeps with
    [detected_ticker = None]. *)
Theorem main_explode_drops_unmatched lookup df_news :
  List.map (λ x, (App.m_item (App.x_row x), Some (App.x_detected_ticker x)))
           (App.explode (App.detect_column gcm lookup df_news))
  = List.filter (λ p, match p.2 with Some _ => true | None => false end)
      (Explode.explode_news_by_ticker gcm
         (λ item, Explode.TitleStr (NewsLoader.n_title item)) df_news lookup).
Proof.
  unfold App.explode, App.detect_column, Explode.explode_news_by_ticker.
  rewrite flat_map_of_map, map_flat_map, filter_flat_map.
  apply flat_map_ext. intros item.
  cbn [App.m_detected_tickers Explode.str].
  destruct (detect_tickers_in_text gcm (NewsLoader.n_title item) lookup)
    as [|t l] eqn:E; [done|].
  rewrite filter_tagged, map_map. done.
Qed.

End TwoExplodes.

(** ** The sentiment scores *)

(** X21.  The keyword score of a text is one of six values, all between
    -0.8 and 0.6: the two tests against 1 and -1 that follow the sums never
    change it. *)
Theorem heuristic_range t :
  Sentiment.heuristic t
    ∈ [0; 0.6; -0.6; 0.39999999999999997; -0.2; -0.8]%float
  ∧ (PrimFloat.leb (-0.8) (Sentiment.heuristic t)
     && PrimFloat.leb (Sentiment.heuristic t) 0.6)%float = true.
Proof.
  unfold Sentiment.heuristic. cbv zeta.
  destruct (Sentiment.any_in _ _), (Sentiment.any_in _ _), (Sentiment.any_in _ _);
    (split; [|vm_compute; reflexivity]).
  all: apply list_elem_of_In; vm_compute; auto 10.
Qed.


(** X22.  [get_sentiment] gives one score per headline whenever the
    classifier, if it answers at all, answers with one element per text:
    through the classifier, or through the keywords when the classifier
    fails or an element of its answer is an empty list. *)
Theorem get_sentiment_length pipe headlines :
  (∀ out, pipe headlines = Some out → length out = length headlines) →
  length (Sentiment.get_sentiment pipe headlines) = length headlines.
Proof.
  intros Hpipe. unfold Sentiment.get_sentiment. cbv zeta.
  destruct (pipe headlines) as [out|] eqn:E; simpl; [|by rewrite length_map].
  destruct (mapM Sentiment._score out) as [scores|] eqn:Es;
    [|by rewrite length_map].
  apply length_mapM in Es. rewrite <- Es. by apply Hpipe.
Qed.

Lemma get_sentiment_length_witness :
  length (Sentiment.get_sentiment
            (λ texts, Some (List.map (λ _, Sentiment.Single
                                             (Classification (Some "Positive")
                                                             (Some 0.9%float)))
                                     texts))
            ["Apple beats"; "Fed warning"]) = 2%nat.
Proof.
  apply (get_sentiment_length _ ["Apple beats"; "Fed warning"]).
  intros out [= <-]. reflexivity.
Defined.

(** X23.  One element of the classifier's answer that is an empty list
    sends every headline to the keywords, also those the classifier has
    scored. *)
Theorem get_sentiment_falls_back pipe headlines out :
  pipe headlines = Some out → Sentiment.Ranked [] ∈ out →
  Sentiment.get_sentiment pipe headlines
  = List.map Sentiment.heuristic headlines.
Proof.
  intros E Hin. unfold Sentiment.get_sentiment. cbv zeta. rewrite E. simpl.
  destruct (mapM Sentiment._score out) as [scores|] eqn:Es; [|done].
  assert (is_Some (mapM Sentiment._score out)) as Hs by by eexists.
  apply mapM_is_Some_1 in Hs. rewrite Forall_forall in Hs.
  by destruct (Hs _ Hin).
Qed.

Lemma get_sentiment_falls_back_witness :
  Sentiment.get_sentiment
    (λ _, Some [Sentiment.Single (Classification (Some "Negative") (Some 0.99%float));
                Sentiment.Ranked []])
    ["Apple beats estimates"; "Shares flat"]
  = [0.6; 0]%float.
Proof.
  rewrite (get_sentiment_falls_back _ _
             [Sentiment.Single (Classification (Some "Negative") (Some 0.99%float));
              Sentiment.Ranked []]).
  - vm_compute. reflexivity.
  - reflexivity.
  - right; left.
Defined.

(** X24.  The two modules score a classification alike unless its label
    holds both [pos] and [neg]: then [analyze_headlines], which looks for
    [neg] first, gives [-score], and [get_sentiment], which looks for [pos]
    first, gives [score]. *)
Theorem scorers_agree c :
  let label := lower (default "" (c_label c)) in
  let score := default 0%float (c_score c) in
  (contains "pos" label && contains "neg" label = false →
   Sentiment._score (Sentiment.Single c)
   = Some (Finbert.numeric_sentiment (Finbert.score_result c)))
  ∧ (contains "pos" label && contains "neg" label = true →
     Sentiment._score (Sentiment.Single c) = Some score
     ∧ Finbert.numeric_sentiment (Finbert.score_result c) = (- score)%float).
Proof.
  cbv zeta. unfold Sentiment._score, Finbert.score_result. simpl.
  destruct (contains "pos" _), (contains "neg" _); simpl; split; by intros.
Qed.

Lemma scorers_agree_witness :
  Sentiment._score (Sentiment.Single (Classification (Some "Positive") (Some 0.9%float)))
  = Some (Finbert.numeric_sentiment
            (Finbert.score_result (Classification (Some "Positive") (Some 0.9%float))))
  ∧ Sentiment._score (Sentiment.Single (Classification (Some "pos|neg") (Some 0.5%float)))
    = Some 0.5%float
  ∧ Finbert.numeric_sentiment
      (Finbert.score_result (Classification (Some "pos|neg") (Some 0.5%float)))
    = (-0.5)%float.
Proof.
  split.
  - apply (proj1 (scorers_agree (Classification (Some "Positive") (Some 0.9%float)))).
    reflexivity.
  - apply (proj2 (scorers_agree (Classification (Some "pos|neg") (Some 0.5%float)))).
    reflexivity.
Defined.

(** ** The cached pipeline *)

Section PipelineFacts.
Context {tokenizer model pipeline_obj : Type}.
Implicit Types (g : Finbert.globals tokenizer model pipeline_obj).
Implicit Types (env : Finbert.loaders tokenizer model pipeline_obj).
Variable run : pipeline_obj → list string → nat → option (list classification).

(** X25.  The pipeline is built at most once: when a call of
    [get_finbert_pipeline] returns a pipeline, the globals hold it, and
    every later call of [get_finbert_pipeline] or [analyze_headlines]
    returns or uses that pipeline and leaves the globals as they are,
    whatever the constructors would do.  A call that raises leaves [_pipe]
    unset. *)
Theorem pipeline_built_once env g g' r :
  Finbert.get_finbert_pipeline env g = (r, g') →
  Finbert._pipe g' = r
  ∧ ∀ p, r = Some p → ∀ env',
      Finbert.get_finbert_pipeline env' g' = (Some p, g')
      ∧ ∀ headlines batch_size,
          Finbert.analyze_headlines run env' headlines batch_size g'
          = (match headlines with
             | [] => Some []
             | _ => List.map Finbert.score_result <$> run p headlines batch_size
             end, g').
Proof.
  intros Hget.
  assert (Finbert._pipe g' = r) as Hpipe.
  { revert Hget. unfold Finbert.get_finbert_pipeline.
    destruct (Finbert._pipe g) as [p|] eqn:Ep; [by intros [= <- <-]|].
    destruct (Finbert.tokenizer_from_pretrained env); [|by intros [= <- <-]].
    destruct (Finbert.model_from_pretrained env); [|by intros [= <- <-]].
    simpl. destruct (Finbert.pipeline env _ _); by intros [= <- <-]. }
  split; [done|]. intros p -> env'.
  assert (Finbert.get_finbert_pipeline env' g' = (Some p, g')) as Hagain
    by (unfold Finbert.get_finbert_pipeline; by rewrite Hpipe).
  split; [done|]. intros headlines batch_size.
  unfold Finbert.analyze_headlines. rewrite Hagain. by destruct headlines.
Qed.

End PipelineFacts.

Lemma pipeline_built_once_witness :
  let run := λ (p : nat) (headlines : list string) (_ : nat),
               Some (List.map (λ _, Classification (Some "Neutral") (Some 0.7%float))
                              headlines) in
  let broken := Finbert.Loaders (None : option nat) (None : option nat)
                                (λ _ _, None : option nat) in
  let g' := Finbert.Globals (Some 1%nat) (Some 2%nat) (Some 3%nat) in
  Finbert.get_finbert_pipeline broken g' = (Some 3%nat, g')
  ∧ Finbert.analyze_headlines run broken ["Shares flat"] 16 g'
    = (Some [Finbert.Scored "neutral" 0.7 0]%float, g').
Proof.
  cbn zeta.
  destruct (pipeline_built_once
              (λ (p : nat) (headlines : list string) (_ : nat),
                 Some (List.map (λ _, Classification (Some "Neutral") (Some 0.7%float))
                                headlines))
              (Finbert.Loaders (Some 1%nat) (Some 2%nat) (λ _ _, Some 3%nat))
              (Finbert.Globals None None None)
              (Finbert.Globals (Some 1%nat) (Some 2%nat) (Some 3%nat))
              (Some 3%nat) eq_refl) as [_ H].
  destruct (H 3%nat eq_refl (Finbert.Loaders None None (λ _ _, None)))
    as [H1 H2].
  split; [exact H1|]. exact (H2 ["Shares flat"] 16%nat).
Defined.

(** ** A keyword counted twice *)


